(** * Road-Trip Rally server (server.js): a shallow embedding

    The server is a single JavaScript file: a seed-driven world generator
    ([noise1], [roadCenterX], [poiForY]), a per-player physics step run by
    [tickRoom] on a 20 Hz timer, and the socket handlers that create, join,
    start and leave rooms.

    Modelling choices:
    - JavaScript numbers are IEEE doubles.  The simulation is embedded over
      the real numbers [R] ([Math.sin] as [sin], [Math.pow] as [Rpower],
      [Math.floor] as [Int_part], ...): rounding, overflow and the precision
      of the engine's [Math.sin] are outside the model.  Values that arrive
      from the network are [jsval]s, whose numeric coercion can be [NaN] or
      infinite, or throw; they are brought into range by the [input]
      handler before they reach a player record.
    - An exception that no handler catches (server.js has no [try]) ends
      the handler where it is thrown and is logged as [Uncaught]; what the
      process does next is outside the model.
    - Timestamps are integers (milliseconds), [Date.now()] is read from an
      oracle [Date_now] and [Math.random()] from an oracle [Math_random];
      the world counts how many readings were taken.
    - A JavaScript object used as a dictionary is an insertion-ordered
      association list ([obj]): socket ids are 20-character strings and are
      never array indices, so [Object.values] enumerates players in
      insertion order.
    - Handlers live in a small state monad over the [World]; what they send
      is appended to the world's [sent] log.
    - The source holds two editions of server.js.  The first one is
      embedded; the second differs in layout, in the order of [trim] and
      [toUpperCase] in [joinRoom], in how a missing name is defaulted, and
      has no [vx], [vy] and [lastTick] fields. *)

From Stdlib Require Import Reals Lra Lia ZArith List String Ascii Bool.
Import ListNotations.

Local Open Scope string_scope.
Local Open Scope R_scope.

(** ** JavaScript objects used as dictionaries *)

Module JsObject.

Definition obj (V : Type) : Type := list (string * V).

Section Ops.
Context {V : Type}.

(** [o[k]] *)
Fixpoint get (k : string) (o : obj V) : option V :=
  match o with
  | [] => None
  | (k', v) :: rest => if String.eqb k k' then Some v else get k rest
  end.

(** [o[k] = v]: an existing key keeps its place, a new key goes last. *)
Fixpoint set (k : string) (v : V) (o : obj V) : obj V :=
  match o with
  | [] => [(k, v)]
  | (k', v') :: rest =>
      if String.eqb k k' then (k', v) :: rest else (k', v') :: set k v rest
  end.

(** [delete o[k]] *)
Definition del (k : string) (o : obj V) : obj V :=
  filter (fun kv => negb (String.eqb k (fst kv))) o.

Definition keys (o : obj V) : list string := map fst o.
Definition values (o : obj V) : list V := map snd o.
End Ops.

End JsObject.

Import JsObject.

(** ** Values received from the network and their coercions *)

Inductive jsnum : Type :=
| NaN
| PosInf
| NegInf
| Fin (r : R).

(** A decoded message field.  [JObject s] is an array or object whose
    string conversion is [s].  [JOpaque] is an array or object that has no
    conversion to a primitive: unary [+] on it throws a [TypeError] (an
    object with an own property [toString] that is not a function, as the
    JSON text [{"toString":1}] decodes to, or an array holding one). *)
Inductive jsval : Type :=
| JUndefined
| JNull
| JBool (b : bool)
| JNum (n : jsnum)
| JStr (s : string)
| JObject (s : string)
| JOpaque.

Definition Rltb (a b : R) : bool := if Rlt_dec a b then true else false.
Definition Rleb (a b : R) : bool := if Rle_dec a b then true else false.
Definition Reqb (a b : R) : bool := if Req_dec_T a b then true else false.

(** Truthiness of a number: [NaN] and zero are falsy. *)
Definition num_truthy (n : jsnum) : bool :=
  match n with
  | NaN => false
  | Fin r => negb (Reqb r 0)
  | PosInf | NegInf => true
  end.

(** [!!v] *)
Definition ToBoolean (v : jsval) : bool :=
  match v with
  | JUndefined | JNull => false
  | JBool b => b
  | JNum n => num_truthy n
  | JStr s => negb (String.eqb s "")
  | JObject _ | JOpaque => true
  end.

(** [n || 0] on numbers *)
Definition or_zero (n : jsnum) : jsnum := if num_truthy n then n else Fin 0.

Definition Math_min (a b : jsnum) : jsnum :=
  match a, b with
  | NaN, _ | _, NaN => NaN
  | NegInf, _ | _, NegInf => NegInf
  | PosInf, n | n, PosInf => n
  | Fin x, Fin y => Fin (Rmin x y)
  end.

Definition Math_max (a b : jsnum) : jsnum :=
  match a, b with
  | NaN, _ | _, NaN => NaN
  | PosInf, _ | _, PosInf => PosInf
  | NegInf, n | n, NegInf => n
  | Fin x, Fin y => Fin (Rmax x y)
  end.

(** The finite value of a number that is stored in a player record. *)
Definition finite (n : jsnum) : R :=
  match n with
  | Fin r => r
  | _ => 0
  end.

(** ** World generator *)

Definition Math_floor (x : R) : R := IZR (Int_part x).

(** The closure [rnd] of [noise1]. *)
Definition rnd (seed n : R) : R :=
  let x := sin ((n + seed) * 12345.678) * 43758.5453 in
  x - Math_floor x.

(** Deterministic 1D value-noise based on seed *)
Definition noise1 (seed y : R) : R :=
  let y0 := Math_floor y in
  let y1 := y0 + 1 in
  let t := y - y0 in
  let smooth := t * t * (3 - 2 * t) in
  rnd seed y0 * (1 - smooth) + rnd seed y1 * smooth.

Definition roadCenterX (seed yMeters : R) : R :=
  let n := noise1 seed (yMeters * 0.0025) * 2 - 1 in
  n * 25.

Inductive PoiType : Type := none | gas | hotel | store | town.

Definition PoiType_eqb (a b : PoiType) : bool :=
  match a, b with
  | none, none | gas, gas | hotel, hotel | store, store | town, town => true
  | _, _ => false
  end.

Record Poi : Type := mkPoi {
  poi_k : R;
  poi_type : PoiType;
  poi_x : R;
  poi_y : R;
  poi_radius : R
}.

Definition SEG : R := 800.

Definition poiForY (seed yMeters : R) : Poi :=
  let k := Math_floor (yMeters / SEG) in
  let r := noise1 (seed + 9999) (k * 1.0) in
  let type :=
    if Rltb r 0.22 then gas
    else if Rltb r 0.38 then hotel
    else if Rltb r 0.54 then store
    else if Rltb r 0.68 then town
    else none in
  let centerX := roadCenterX seed (k * SEG + SEG * 0.5) in
  let side := if Rltb r 0.5 then -1 else 1 in
  let x := centerX + side * (7 + 10) in
  let y := k * SEG + SEG * 0.5 in
  {| poi_k := k; poi_type := type; poi_x := x; poi_y := y;
     poi_radius := if PoiType_eqb type town then 22 else 10 |}.

(** ** Players, rooms and what the server sends *)

Record Player : Type := mkPlayer {
  id : string; name : string; color : string;
  x : R; y : R; angle : R;
  vx : R; vy : R; speed : R;
  fuel : R; maxFuel : R;
  throttle : R; brake : R; steer : R; refuel : bool;
  distance : R;
  ready : bool; isHost : bool; lastHeard : Z
}.

Inductive Phase : Type := lobby | running.

Definition Phase_eqb (a b : Phase) : bool :=
  match a, b with
  | lobby, lobby | running, running => true
  | _, _ => false
  end.

Record Room : Type := mkRoom {
  code : string;
  createdAt : Z;
  seed : R;
  phase : Phase;
  players : obj Player;
  lastTick : Z
}.

(** An entry of [snapshotRoom(room).players]. *)
Record LobbyPlayer : Type := mkLobbyPlayer {
  lp_id : string; lp_name : string; lp_color : string;
  lp_ready : bool; lp_isHost : bool; lp_distance : R
}.

Record Snapshot : Type := mkSnapshot {
  snap_code : string;
  snap_phase : Phase;
  snap_seed : R;
  snap_players : list LobbyPlayer
}.

(** An entry of the [state] payload built by [tickRoom]. *)
Record StatePlayer : Type := mkStatePlayer {
  sp_id : string; sp_name : string; sp_color : string;
  sp_x : R; sp_y : R; sp_angle : R; sp_speed : R;
  sp_fuel : R; sp_maxFuel : R; sp_distance : R
}.

Inductive Payload : Type :=
| PSnapshot (s : Snapshot)                        (* snapshotRoom(room) *)
| PJoined (s : Snapshot) (playerId : string)      (* { ...snapshotRoom(room), playerId } *)
| PStart (seed : R)                               (* { seed } *)
| PState (ph : Phase) (seed : R) (ps : list StatePlayer) (t : Z)
| PPlayers (ps : list Player)                     (* { players: Object.values(r.players) } *)
| PText (msg : string)
| PEcho (d : jsval).

Inductive Action : Type :=
| SocketEmit (sid : string) (event : string) (data : Payload)  (* socket.emit *)
| RoomEmit (room : string) (event : string) (data : Payload)   (* io.to(room).emit *)
| SocketJoin (sid : string) (room : string)
| SocketLeave (sid : string) (room : string)
(* the handler of [sid] ended there with an uncaught exception; what the
   process does with it is outside the model *)
| Uncaught (sid : string) (error : string).

Definition lobbyPlayer (p : Player) : LobbyPlayer :=
  {| lp_id := id p; lp_name := name p; lp_color := color p;
     lp_ready := ready p; lp_isHost := isHost p; lp_distance := distance p |}.

Definition snapshotRoom (room : Room) : Snapshot :=
  {| snap_code := code room;
     snap_phase := phase room;
     snap_seed := seed room;
     snap_players := map lobbyPlayer (values (players room)) |}.

Definition statePlayer (p : Player) : StatePlayer :=
  {| sp_id := id p; sp_name := name p; sp_color := color p;
     sp_x := x p; sp_y := y p; sp_angle := angle p; sp_speed := speed p;
     sp_fuel := fuel p; sp_maxFuel := maxFuel p; sp_distance := distance p |}.

(** Field updates. *)
Definition with_players (r : Room) (ps : obj Player) : Room :=
  {| code := code r; createdAt := createdAt r; seed := seed r;
     phase := phase r; players := ps; lastTick := lastTick r |}.

Definition with_phase (r : Room) (ph : Phase) : Room :=
  {| code := code r; createdAt := createdAt r; seed := seed r;
     phase := ph; players := players r; lastTick := lastTick r |}.

Definition with_createdAt (r : Room) (t : Z) : Room :=
  {| code := code r; createdAt := t; seed := seed r;
     phase := phase r; players := players r; lastTick := lastTick r |}.

Definition with_ready (p : Player) (b : bool) : Player :=
  {| id := id p; name := name p; color := color p;
     x := x p; y := y p; angle := angle p;
     vx := vx p; vy := vy p; speed := speed p;
     fuel := fuel p; maxFuel := maxFuel p;
     throttle := throttle p; brake := brake p; steer := steer p;
     refuel := refuel p; distance := distance p;
     ready := b; isHost := isHost p; lastHeard := lastHeard p |}.

Definition with_isHost (p : Player) (b : bool) : Player :=
  {| id := id p; name := name p; color := color p;
     x := x p; y := y p; angle := angle p;
     vx := vx p; vy := vy p; speed := speed p;
     fuel := fuel p; maxFuel := maxFuel p;
     throttle := throttle p; brake := brake p; steer := steer p;
     refuel := refuel p; distance := distance p;
     ready := ready p; isHost := b; lastHeard := lastHeard p |}.

Definition with_controls (p : Player) (th br st : R) (rf : bool) (t : Z) : Player :=
  {| id := id p; name := name p; color := color p;
     x := x p; y := y p; angle := angle p;
     vx := vx p; vy := vy p; speed := speed p;
     fuel := fuel p; maxFuel := maxFuel p;
     throttle := th; brake := br; steer := st;
     refuel := rf; distance := distance p;
     ready := ready p; isHost := isHost p; lastHeard := t |}.

(** ** The physics step: the body of the loop of [tickRoom] *)

Definition TICK_HZ : R := 20.
Definition DT : R := 1 / TICK_HZ.
Definition ROOM_TTL_MS : Z := 1000 * 60 * 60.

Module phys.
Definition accel : R := 8.0.
Definition brake : R := 10.0.
Definition baseFriction : R := 0.9.
Definition maxSpeed : R := 45.
Definition turnRate : R := 1.8.
Definition offroadFriction : R := 0.65.
Definition fuelBurn : R := 0.015.
Definition roadHalfW : R := 7.0.
End phys.

Definition Math_hypot (a b : R) : R := sqrt (a * a + b * b).

(** One iteration of [for (const p of Object.values(room.players))], with
    [now] the reading of [nowMs()] taken at its first line. *)
Definition tickPlayer (seed : R) (now : Z) (p : Player) : Player :=
  let idle := (now - lastHeard p >? 10000)%Z in
  let throttle1 := if idle then 0 else throttle p in
  let steer1 := if idle then 0 else steer p in
  let brake1 := if idle then 0 else brake p in
  let refuel1 := if idle then false else refuel p in

  let cx := roadCenterX seed (y p) in
  let off := Rabs (x p - cx) in
  let onRoad := Rleb off phys.roadHalfW in

  let aFwd := (throttle1 * phys.accel) - (brake1 * phys.brake) in
  let speed1 := speed p + aFwd * DT in

  let friction :=
    Rpower (if onRoad then phys.baseFriction else phys.offroadFriction) DT in
  let speed2 := speed1 * friction in

  let speed3 := if Rltb phys.maxSpeed speed2 then phys.maxSpeed else speed2 in
  let speed4 := if Rltb speed3 (-10) then -10 else speed3 in

  let steerFactor := 0.2 + 0.8 * Rmin (Rabs speed4 / phys.maxSpeed) 1 in
  let angle1 := angle p + steer1 * phys.turnRate * steerFactor * DT in

  let dx := sin angle1 * speed4 * DT in
  let dy := cos angle1 * speed4 * DT in
  let x1 := x p + dx in
  let y1 := y p + dy in

  let distance1 := if Rltb 0 dy then distance p + dy else distance p in

  let fuel1 :=
    if Rltb 0 throttle1 && Rltb 0.2 speed4 then
      let f := fuel p - phys.fuelBurn * throttle1 * (if onRoad then 1 else 1.8) in
      if Rltb f 0 then 0 else f
    else fuel p in

  let fuel2 :=
    if refuel1 && Rltb fuel1 (maxFuel p) then
      let poi := poiForY seed y1 in
      let dist := Math_hypot (x1 - poi_x poi) (y1 - poi_y poi) in
      if (PoiType_eqb (poi_type poi) gas || PoiType_eqb (poi_type poi) town
          || PoiType_eqb (poi_type poi) store)
         && Rleb dist (poi_radius poi + 3) then
        let f := fuel1 + 30 * DT in
        if Rltb (maxFuel p) f then maxFuel p else f
      else fuel1
    else fuel1 in

  let speed5 :=
    if Rleb fuel2 0 && Rltb 0 speed4 then speed4 * Rpower 0.5 DT else speed4 in

  {| id := id p; name := name p; color := color p;
     x := x1; y := y1; angle := angle1;
     vx := vx p; vy := vy p; speed := speed5;
     fuel := fuel2; maxFuel := maxFuel p;
     throttle := throttle1; brake := brake1; steer := steer1;
     refuel := refuel1; distance := distance1;
     ready := ready p; isHost := isHost p; lastHeard := lastHeard p |}.

(** ** String helpers of the handlers (ASCII) *)

Definition upper (c : ascii) : ascii :=
  let n := nat_of_ascii c in
  if (97 <=? n)%nat && (n <=? 122)%nat then ascii_of_nat (n - 32) else c.

Fixpoint toUpperCase (s : string) : string :=
  match s with
  | EmptyString => EmptyString
  | String c rest => String (upper c) (toUpperCase rest)
  end.

Definition is_space (c : ascii) : bool :=
  let n := nat_of_ascii c in
  ((9 <=? n)%nat && (n <=? 13)%nat) || (n =? 32)%nat.

Fixpoint trimStart (s : string) : string :=
  match s with
  | EmptyString => EmptyString
  | String c rest => if is_space c then trimStart rest else s
  end.

Fixpoint trimEnd (s : string) : string :=
  match s with
  | EmptyString => EmptyString
  | String c rest =>
      match trimEnd rest with
      | EmptyString => if is_space c then EmptyString else String c EmptyString
      | rest' => String c rest'
      end
  end.

Definition trim (s : string) : string := trimEnd (trimStart s).

(** [s || d] on strings: the empty string is falsy. *)
Definition or_default (s d : string) : string :=
  if String.eqb s "" then d else s.

(** [name?.slice(0,18) || "Driver"]; a missing field is [None]. *)
Definition playerName (nm : option string) : string :=
  match nm with
  | None => "Driver"
  | Some s => or_default (substring 0 18 s) "Driver"
  end.

(** [color || dflt] *)
Definition playerColor (c : option string) (dflt : string) : string :=
  match c with
  | None => dflt
  | Some s => or_default s dflt
  end.

(** [(code || "").toUpperCase().trim()]; a missing field is [None]. *)
Definition normalizeCode (code0 : option string) : string :=
  trim (toUpperCase (match code0 with
                     | Some s => or_default s ""
                     | None => ""
                     end)).

Definition CODE_CHARS : string := "ABCDEFGHJKMNPQRSTUVWXYZ23456789".

(** [CODE_CHARS[i]] as it is appended to a string: out of range gives
    [undefined], which concatenates as the word. *)
Definition charAt (s : string) (i : Z) : string :=
  match (if (i <? 0)%Z then None else String.get (Z.to_nat i) s) with
  | Some c => String c EmptyString
  | None => "undefined"
  end.

(** ** The server's state and its monad *)

Record World : Type := mkWorld {
  rooms : obj Room;
  (** the variable [joinedCode] of each connection's closure; absent = null *)
  joinedCode : obj string;
  clockReads : nat;
  randomReads : nat;
  sent : list Action
}.

Definition JS (A : Type) : Type := World -> A * World.

Definition ret {A : Type} (a : A) : JS A := fun w => (a, w).

Definition bind {A B : Type} (m : JS A) (k : A -> JS B) : JS B :=
  fun w => let (a, w') := m w in k a w'.

Notation "x <- m ;; k" := (bind m (fun x => k))
  (at level 61, m at next level, right associativity).
Notation "m ;;; k" := (bind m (fun _ => k))
  (at level 61, right associativity).

Definition exec {A : Type} (m : JS A) (w : World) : World := snd (m w).
Definition eval {A : Type} (m : JS A) (w : World) : A := fst (m w).

Definition with_rooms (w : World) (rs : obj Room) : World :=
  {| rooms := rs; joinedCode := joinedCode w; clockReads := clockReads w;
     randomReads := randomReads w; sent := sent w |}.

(** [rooms[c]].  With [joinedCode] still null the lookup is [rooms["null"]],
    which is never a room: a code has six characters or more. *)
Definition getRoom (c : option string) : JS (option Room) :=
  fun w => (match c with Some c => get c (rooms w) | None => None end, w).

Definition setRoom (c : string) (r : Room) : JS unit :=
  fun w => (tt, with_rooms w (set c r (rooms w))).

Definition deleteRoom (c : string) : JS unit :=
  fun w => (tt, with_rooms w (del c (rooms w))).

Definition roomKeys : JS (list string) := fun w => (keys (rooms w), w).

Definition getJoined (sid : string) : JS (option string) :=
  fun w => (get sid (joinedCode w), w).

Definition setJoined (sid : string) (c : option string) : JS unit :=
  fun w =>
    (tt, {| rooms := rooms w;
            joinedCode := match c with
                          | Some c => set sid c (joinedCode w)
                          | None => del sid (joinedCode w)
                          end;
            clockReads := clockReads w; randomReads := randomReads w;
            sent := sent w |}).

Definition send (a : Action) : JS unit :=
  fun w =>
    (tt, {| rooms := rooms w; joinedCode := joinedCode w;
            clockReads := clockReads w; randomReads := randomReads w;
            sent := sent w ++ [a] |}).

(** The fields of the payload of an [input] message; a field that was not
    sent is [JUndefined], and a payload that is a number, a string or a
    boolean has no field.  A message without payload, or with payload
    [null], has no [InputData]: the handlers receive an
    [option InputData]. *)
Record InputData : Type := mkInputData {
  d_throttle : jsval; d_brake : jsval; d_steer : jsval; d_refuel : jsval
}.

Section Server.

(** The [n]-th reading of [Date.now()] and of [Math.random()], and the
    numeric value of a string (the StringToNumber grammar of the
    language). *)
Variable Date_now : nat -> Z.
Variable Math_random : nat -> R.
Variable StringToNumber : string -> jsnum.

Definition nowMs : JS Z :=
  fun w =>
    (Date_now (clockReads w),
     {| rooms := rooms w; joinedCode := joinedCode w;
        clockReads := S (clockReads w); randomReads := randomReads w;
        sent := sent w |}).

Definition random : JS R :=
  fun w =>
    (Math_random (randomReads w),
     {| rooms := rooms w; joinedCode := joinedCode w;
        clockReads := clockReads w; randomReads := S (randomReads w);
        sent := sent w |}).

(** [+v]; [None] when the conversion throws a [TypeError]. *)
Definition ToNumber (v : jsval) : option jsnum :=
  match v with
  | JUndefined => Some NaN
  | JNull => Some (Fin 0)
  | JBool b => Some (if b then Fin 1 else Fin 0)
  | JNum n => Some n
  | JStr s => Some (StringToNumber s)
  | JObject s => Some (StringToNumber s)
  | JOpaque => None
  end.

(** [Math.max(lo, Math.min(hi, +v || 0))]; [None] when [+v] throws. *)
Definition clampField (lo hi : R) (v : jsval) : option jsnum :=
  match ToNumber v with
  | Some n => Some (Math_max (Fin lo) (Math_min (Fin hi) (or_zero n)))
  | None => None
  end.

(** *** Helpers *)

Fixpoint makeCode_from (len : nat) (s : string) : JS string :=
  match len with
  | O => ret s
  | S len' =>
      u <- random ;;
      makeCode_from len'
        (s ++ charAt CODE_CHARS
                (Int_part (u * INR (String.length CODE_CHARS))))
  end.

Definition makeCode : JS string := makeCode_from 6 "".

Definition makePlayer (id name color : string) : JS Player :=
  t <- nowMs ;;
  ret {| id := id; name := name; color := color;
         x := 0; y := 0; angle := 0;
         vx := 0; vy := 0; speed := 0;
         fuel := 100; maxFuel := 100;
         throttle := 0; brake := 0; steer := 0; refuel := false;
         distance := 0;
         ready := false; isHost := false; lastHeard := t |}.

(** *** Rooms and game loop *)

(** [do { code = makeCode(); } while (rooms[code]);] with at most
    [S fuel] draws; [None] when every draw was taken. *)
Fixpoint freshCode (fuel : nat) : JS (option string) :=
  c <- makeCode ;;
  r <- getRoom (Some c) ;;
  match r with
  | None => ret (Some c)
  | Some _ =>
      match fuel with
      | O => ret None
      | S fuel' => freshCode fuel'
      end
  end.

Definition createRoom (fuel : nat) : JS (option Room) :=
  c <- freshCode fuel ;;
  match c with
  | None => ret None
  | Some c =>
      t0 <- nowMs ;;
      u <- random ;;
      t1 <- nowMs ;;
      let room := {| code := c; createdAt := t0;
                     seed := Math_floor (u * 1e9);
                     phase := lobby; players := []; lastTick := t1 |} in
      setRoom c room ;;;
      ret (Some room)
  end.

Fixpoint destroyEmptyStaleRooms_from (t : Z) (codes : list string) : JS unit :=
  match codes with
  | [] => ret tt
  | c :: rest =>
      r <- getRoom (Some c) ;;
      match r with
      | None => destroyEmptyStaleRooms_from t rest
      | Some r =>
          (if (List.length (keys (players r)) =? 0)%nat
              && (t - createdAt r >? ROOM_TTL_MS)%Z
           then deleteRoom c else ret tt) ;;;
          destroyEmptyStaleRooms_from t rest
      end
  end.

Definition destroyEmptyStaleRooms : JS unit :=
  t <- nowMs ;;
  codes <- roomKeys ;;
  destroyEmptyStaleRooms_from t codes.

(** The loop of [tickRoom] over [Object.values(room.players)]. *)
Fixpoint tickPlayers (seed : R) (ps : obj Player) : JS (obj Player) :=
  match ps with
  | [] => ret []
  | (k, p) :: rest =>
      now <- nowMs ;;
      rest' <- tickPlayers seed rest ;;
      ret ((k, tickPlayer seed now p) :: rest')
  end.

(** [tickRoom(room)]; the result is the room as the loop left it. *)
Definition tickRoom (room : Room) : JS Room :=
  ps <- tickPlayers (seed room) (players room) ;;
  let room' := with_players room ps in
  t <- nowMs ;;
  let payload :=
    PState (phase room') (seed room')
           (map statePlayer (values (players room'))) t in
  send (RoomEmit (code room') "state" payload) ;;;
  ret room'.

Fixpoint tickRooms (codes : list string) : JS unit :=
  match codes with
  | [] => ret tt
  | c :: rest =>
      r <- getRoom (Some c) ;;
      match r with
      | None => tickRooms rest
      | Some r =>
          (if Phase_eqb (phase r) running
           then r' <- tickRoom r ;; setRoom c r'
           else ret tt) ;;;
          tickRooms rest
      end
  end.

(** The callback of [setInterval]. *)
Definition interval : JS unit :=
  codes <- roomKeys ;;
  tickRooms codes ;;;
  destroyEmptyStaleRooms.

(** *** Sockets: the handlers of connection [sid] *)

Definition on_pingCheck (sid : string) (d : jsval) : JS unit :=
  send (SocketEmit sid "pong" (PEcho d)).

Definition on_createRoom (sid : string) (nm col : option string)
    (fuel : nat) : JS unit :=
  room <- createRoom fuel ;;
  match room with
  | None => ret tt
  | Some room =>
      p <- makePlayer sid (playerName nm) (playerColor col "#5ec8f8") ;;
      let p := with_isHost p true in
      let room := with_players room (set sid p (players room)) in
      setRoom (code room) room ;;;
      setJoined sid (Some (code room)) ;;;
      send (SocketJoin sid (code room)) ;;;
      send (SocketEmit sid "joined" (PJoined (snapshotRoom room) sid)) ;;;
      send (RoomEmit (code room) "lobby" (PSnapshot (snapshotRoom room)))
  end.

Definition on_joinRoom (sid : string) (code0 nm col : option string)
    : JS unit :=
  let c := normalizeCode code0 in
  room <- getRoom (Some c) ;;
  match room with
  | None => send (SocketEmit sid "errorMsg" (PText "Room not found."))
  | Some room =>
      if negb (Phase_eqb (phase room) lobby) then
        send (SocketEmit sid "errorMsg" (PText "Game already started."))
      else if (12 <=? List.length (keys (players room)))%nat then
        send (SocketEmit sid "errorMsg" (PText "Room full."))
      else
        p <- makePlayer sid (playerName nm) (playerColor col "#f6a93b") ;;
        let room := with_players room (set sid p (players room)) in
        setRoom c room ;;;
        setJoined sid (Some c) ;;;
        send (SocketJoin sid c) ;;;
        send (SocketEmit sid "joined" (PJoined (snapshotRoom room) sid)) ;;;
        send (RoomEmit c "lobby" (PSnapshot (snapshotRoom room)))
  end.

Definition on_setReady (sid : string) (rdy : jsval) : JS unit :=
  jc <- getJoined sid ;;
  r <- getRoom jc ;;
  match jc, r with
  | Some jc, Some r =>
      match get sid (players r) with
      | None => ret tt
      | Some p =>
          let r := with_players r
                     (set sid (with_ready p (ToBoolean rdy)) (players r)) in
          setRoom jc r ;;;
          send (RoomEmit jc "lobby" (PSnapshot (snapshotRoom r)))
      end
  | _, _ => ret tt
  end.

Definition on_startGame (sid : string) : JS unit :=
  jc <- getJoined sid ;;
  r <- getRoom jc ;;
  match jc, r with
  | Some jc, Some r =>
      match get sid (players r) with
      | None => ret tt
      | Some p =>
          if negb (isHost p) then ret tt
          else
            let r := with_phase r running in
            setRoom jc r ;;;
            send (RoomEmit jc "start" (PStart (seed r)))
      end
  | _, _ => ret tt
  end.

(** The handler ends with an uncaught [TypeError]. *)
Definition throw (sid : string) : JS unit := send (Uncaught sid "TypeError").

(** The assignments are made one after the other on the player object, so
    an exception leaves the ones before it in place: [data.throttle] on a
    missing payload throws before any of them, and a field that has no
    conversion throws at its own line. *)
Definition on_input (sid : string) (data : option InputData) : JS unit :=
  jc <- getJoined sid ;;
  r <- getRoom jc ;;
  match jc, r with
  | Some jc, Some r =>
      match get sid (players r) with
      | None => ret tt
      | Some p =>
          let store p' :=
            setRoom jc (with_players r (set sid p' (players r))) in
          match data with
          | None => throw sid
          | Some data =>
              match clampField 0 1 (d_throttle data) with
              | None => throw sid
              | Some th =>
                  match clampField 0 1 (d_brake data) with
                  | None =>
                      store (with_controls p (finite th) (brake p) (steer p)
                               (refuel p) (lastHeard p)) ;;;
                      throw sid
                  | Some br =>
                      match clampField (-1) 1 (d_steer data) with
                      | None =>
                          store (with_controls p (finite th) (finite br)
                                   (steer p) (refuel p) (lastHeard p)) ;;;
                          throw sid
                      | Some st =>
                          let rf := ToBoolean (d_refuel data) in
                          t <- nowMs ;;
                          store (with_controls p (finite th) (finite br)
                                   (finite st) rf t)
                      end
                  end
              end
          end
      end
  | _, _ => ret tt
  end.

Definition on_leaveRoom (sid : string) : JS unit :=
  jc <- getJoined sid ;;
  r <- getRoom jc ;;
  match jc, r with
  | Some jc, Some r =>
      let r := with_players r (del sid (players r)) in
      setRoom jc r ;;;
      send (SocketLeave sid jc) ;;;
      setJoined sid None ;;;
      if (List.length (keys (players r)) =? 0)%nat then
        t <- nowMs ;;
        setRoom jc (with_createdAt r (t - ROOM_TTL_MS - 1)%Z)
      else send (RoomEmit (code r) "lobby" (PSnapshot (snapshotRoom r)))
  | _, _ => ret tt
  end.

(** [const first = Object.values(r.players)[0]; if (first) first.isHost = true;] *)
Definition promoteFirst (ps : obj Player) : obj Player :=
  match ps with
  | [] => []
  | (k, first) :: rest => (k, with_isHost first true) :: rest
  end.

Definition on_disconnect (sid : string) : JS unit :=
  jc <- getJoined sid ;;
  r <- getRoom jc ;;
  match jc, r with
  | Some jc, Some r =>
      let wasHost := match get sid (players r) with
                     | Some p => isHost p
                     | None => false
                     end in
      let ps := del sid (players r) in
      let ps := if wasHost then promoteFirst ps else ps in
      let r := with_players r ps in
      setRoom jc r ;;;
      if (List.length (keys (players r)) =? 0)%nat then
        t <- nowMs ;;
        setRoom jc (with_createdAt r (t - ROOM_TTL_MS - 1)%Z)
      else
        send (RoomEmit (code r)
                (if Phase_eqb (phase r) lobby then "lobby" else "state")
                (if Phase_eqb (phase r) lobby
                 then PSnapshot (snapshotRoom r)
                 else PPlayers (values (players r))))
  | _, _ => ret tt
  end.

(** *** Everything that can happen to the server

    The string fields of [createRoom] and [joinRoom] are [None] when
    missing, null or undefined, and so is the payload of [input].  [fuel]
    bounds the retries of the code generator in [createRoom], whose loop
    has no bound in the source: a run that is cut off stands for a loop
    that has not yet drawn a free code. *)

Inductive Event : Type :=
| PingCheck (sid : string) (d : jsval)
| CreateRoom (sid : string) (nm col : option string) (fuel : nat)
| JoinRoom (sid : string) (code0 nm col : option string)
| SetReady (sid : string) (rdy : jsval)
| StartGame (sid : string)
| Input (sid : string) (data : option InputData)
| LeaveRoom (sid : string)
| Disconnect (sid : string)
| Interval.

Definition handle (e : Event) : JS unit :=
  match e with
  | PingCheck sid d => on_pingCheck sid d
  | CreateRoom sid nm col fuel => on_createRoom sid nm col fuel
  | JoinRoom sid c nm col => on_joinRoom sid c nm col
  | SetReady sid rdy => on_setReady sid rdy
  | StartGame sid => on_startGame sid
  | Input sid data => on_input sid data
  | LeaveRoom sid => on_leaveRoom sid
  | Disconnect sid => on_disconnect sid
  | Interval => interval
  end.

Definition step (e : Event) (w : World) : World := exec (handle e) w.

Definition run (es : list Event) (w : World) : World :=
  fold_left (fun w e => step e w) es w.

End Server.

(** ** Predicates used by the statements *)

(** Fuel and speed are within their bounds. *)
Definition bounded (p : Player) : Prop :=
  0 <= fuel p <= maxFuel p /\ -10 <= speed p <= 45.

(** Every player of every room of the registry satisfies [P]. *)
Definition every_player (P : Player -> Prop) (w : World) : Prop :=
  forall c r sid p,
    get c (rooms w) = Some r -> get sid (players r) = Some p -> P p.

(** What "clamped into [[lo, hi]]" means for a coerced field: a finite
    number is cut to the interval, an infinite one goes to the nearer end,
    and a field that is not a number counts as zero. *)
Definition clamped_to (lo hi : R) (n : jsnum) (stored : R) : Prop :=
  match n with
  | Fin v => stored = Rmax lo (Rmin hi v)
  | PosInf => stored = hi
  | NegInf => stored = lo
  | NaN => stored = Rmax lo (Rmin hi 0)
  end.

(** ** A two-player room used for the concrete runs *)

Definition alice : Player :=
  {| id := "sockA"; name := "Alice"; color := "#5ec8f8";
     x := 0; y := 0; angle := 0; vx := 0; vy := 0; speed := 0;
     fuel := 100; maxFuel := 100;
     throttle := 0; brake := 0; steer := 0; refuel := false;
     distance := 0; ready := false; isHost := true; lastHeard := 0 |}.

Definition bob : Player :=
  {| id := "sockB"; name := "Bob"; color := "#f6a93b";
     x := 0; y := 0; angle := 0; vx := 0; vy := 0; speed := 0;
     fuel := 100; maxFuel := 100;
     throttle := 0; brake := 0; steer := 0; refuel := false;
     distance := 0; ready := false; isHost := false; lastHeard := 0 |}.

Definition demo_room (ph : Phase) : Room :=
  {| code := "ABC234"; createdAt := 0; seed := 42; phase := ph;
     players := [("sockA", alice); ("sockB", bob)]; lastTick := 0 |}.

(** Alice created the room, Bob joined it. *)
Definition demo_world (ph : Phase) : World :=
  {| rooms := [("ABC234", demo_room ph)];
     joinedCode := [("sockA", "ABC234"); ("sockB", "ABC234")];
     clockReads := 0; randomReads := 0; sent := [] |}.

(** Oracles of the concrete runs: a stopped clock, a constant generator and
    a parser that reads no string as a number. *)
Definition clock0 : nat -> Z := fun _ => 0%Z.
Definition random0 : nat -> R := fun _ => 0.
Definition parse0 : string -> jsnum := fun _ => NaN.

(** A request of connection [sid] failed with message [msg]: the registry
    and the connections' rooms are as before, and the only thing sent is
    the message, to [sid] alone. *)
Definition refused (sid msg : string) (w w' : World) : Prop :=
  rooms w' = rooms w /\
  joinedCode w' = joinedCode w /\
  sent w' = (sent w ++ [SocketEmit sid "errorMsg" (PText msg)])%list.

(** The record [makePlayer] builds at time [t]. *)
Definition freshPlayer (sid nm col : string) (t : Z) : Player :=
  {| id := sid; name := nm; color := col;
     x := 0; y := 0; angle := 0; vx := 0; vy := 0; speed := 0;
     fuel := 100; maxFuel := 100;
     throttle := 0; brake := 0; steer := 0; refuel := false;
     distance := 0; ready := false; isHost := false; lastHeard := t |}.

(** Every entry of [o'] comes from the entry of [o] under the same key,
    and the two are related by [R]: nothing is new in [o']. *)
Definition evolves {V : Type} (R : V -> V -> Prop) (o o' : obj V) : Prop :=
  forall k v', get k o' = Some v' -> exists v, get k o = Some v /\ R v v'.

(** A player record later in its life: the recorded distance has not
    gone down, and fuel and speed are within bounds if they were. *)
Definition player_le (p p' : Player) : Prop :=
  distance p <= distance p' /\ (bounded p -> bounded p').

(** A room later in its life: a running room is still running, the seed
    is the same, and every player it holds was there before. *)
Definition room_le (r r' : Room) : Prop :=
  (phase r = running -> phase r' = running) /\
  seed r' = seed r /\
  evolves player_le (players r) (players r').

(** The events that put a new player record in a room. *)
Definition adds_player (e : Event) : bool :=
  match e with
  | CreateRoom _ _ _ _ | JoinRoom _ _ _ _ => true
  | _ => false
  end.

(** As [room_le], except that a player may also be a record that is within
    bounds without having been there before (one just made). *)
Definition room_grows (r r' : Room) : Prop :=
  (phase r = running -> phase r' = running) /\
  seed r' = seed r /\
  forall sid p', get sid (players r') = Some p' ->
    (exists p, get sid (players r) = Some p /\ player_le p p') \/ bounded p'.

(** An input message with a throttle out of range, no brake field, a steer
    field that is not a number and a truthy refuel field. *)
Definition demo_input : InputData :=
  {| d_throttle := JNum (Fin 5); d_brake := JUndefined;
     d_steer := JStr "left"; d_refuel := JNum (Fin 1) |}.

(** A message whose steer field has no conversion to a number, as the
    JSON payload [{"throttle":1,"brake":1,"steer":{"toString":1},
    "refuel":true}] has: the own [toString] of the steer object is not
    callable, and neither is its [valueOf]. *)
Definition opaque_input : InputData :=
  {| d_throttle := JNum (Fin 1); d_brake := JNum (Fin 1);
     d_steer := JOpaque; d_refuel := JBool true |}.

(** The demo room after one tick of the timer at time 0. *)
Definition demo_room_ticked : Room :=
  with_players (demo_room running)
    [("sockA", tickPlayer 42 0 alice); ("sockB", tickPlayer 42 0 bob)].

(** ** What one handler or one tick does to a room *)

(** The number of host flags among the players of a room. *)
Definition hosts (ps : obj Player) : nat :=
  List.length (filter isHost (values ps)).

(** The flag [wasHost] of the [disconnect] handler. *)
Definition wasHost (sid : string) (ps : obj Player) : bool :=
  match get sid ps with
  | Some p => isHost p
  | None => false
  end.

(** The loop of [tickRoom] took [ps] to [ps']: same keys in the same
    order, every record stepped once at some reading of the clock. *)
Definition ticked (sd : R) (ps ps' : obj Player) : Prop :=
  Forall2 (fun kp kp' => fst kp' = fst kp /\
                         exists now, snd kp' = tickPlayer sd now (snd kp))
          ps ps'.

(** One change of a room object, as the handlers and the timer make it.
    [step_input_part] is the [input] handler stopped by an exception after
    it stored the throttle, or the throttle and the brake. *)
Inductive room_step : Room -> Room -> Prop :=
| step_ready r sid p b :
    get sid (players r) = Some p ->
    room_step r (with_players r (set sid (with_ready p b) (players r)))
| step_input r sid p th br st rf t :
    get sid (players r) = Some p ->
    0 <= th <= 1 -> 0 <= br <= 1 -> -1 <= st <= 1 ->
    room_step r
      (with_players r (set sid (with_controls p th br st rf t) (players r)))
| step_input_part r sid p th br :
    get sid (players r) = Some p ->
    0 <= th <= 1 -> br = brake p \/ 0 <= br <= 1 ->
    room_step r
      (with_players r
         (set sid (with_controls p th br (steer p) (refuel p) (lastHeard p))
              (players r)))
| step_start r sid p :
    get sid (players r) = Some p -> isHost p = true ->
    room_step r (with_phase r running)
| step_join r sid nm col t :
    phase r = lobby -> (List.length (players r) < 12)%nat ->
    room_step r
      (with_players r (set sid (freshPlayer sid nm col t) (players r)))
| step_leave r sid :
    room_step r (with_players r (del sid (players r)))
| step_disconnect r sid :
    room_step r
      (with_players r (if wasHost sid (players r)
                       then promoteFirst (del sid (players r))
                       else del sid (players r)))
| step_backdate r t :
    players r = [] ->
    room_step r (with_createdAt r t)
| step_tick r ps :
    phase r = running -> ticked (seed r) (players r) ps ->
    room_step r (with_players r ps).

(** Any number of changes, one after the other. *)
Inductive room_steps : Room -> Room -> Prop :=
| steps_none r : room_steps r r
| steps_more r1 r2 r3 :
    room_steps r1 r2 -> room_step r2 r3 -> room_steps r1 r3.

(** The room that the [createRoom] handler leaves under code [c]: a lobby
    whose only player is its creator, with the host flag. *)
Definition opened (c : string) (r : Room) : Prop :=
  exists sid nm col t0 sd t1 t,
    r = {| code := c; createdAt := t0; seed := sd; phase := lobby;
           players := [(sid, with_isHost (freshPlayer sid nm col t) true)];
           lastTick := t1 |}.

(** Every room of the registry satisfies [P]. *)
Definition every_room (P : Room -> Prop) (w : World) : Prop :=
  forall c r, get c (rooms w) = Some r -> P r.

(** The stored controls are in range. *)
Definition controls_in_range (p : Player) : Prop :=
  0 <= throttle p <= 1 /\ 0 <= brake p <= 1 /\ -1 <= steer p <= 1.

(** The test of [destroyEmptyStaleRooms]: no player, and more than the
    time to live since [createdAt]. *)
Definition stale (t : Z) (r : Room) : bool :=
  (List.length (keys (players r)) =? 0)%nat && (t - createdAt r >? ROOM_TTL_MS)%Z.

(** The characters of a string are all in [CODE_CHARS]. *)
Definition code_like (s : string) : Prop :=
  Forall (fun ch => In ch (list_ascii_of_string CODE_CHARS))
         (list_ascii_of_string s).

(** Two states of the server that differ at most in the count of random
    readings. *)
Definition same_but_random (w w' : World) : Prop :=
  rooms w' = rooms w /\ joinedCode w' = joinedCode w /\
  clockReads w' = clockReads w /\ sent w' = sent w.



(** Alice alone in her lobby. *)
Definition solo_world : World :=
  {| rooms := [("ABC234", with_players (demo_room lobby) [("sockA", alice)])];
     joinedCode := [("sockA", "ABC234")];
     clockReads := 0; randomReads := 0; sent := [] |}.

(** * Properties *)

(** ** Dictionaries *)

Section ObjFacts.
Context {V : Type}.
Implicit Types (o : obj V) (k : string) (v : V).

Lemma get_set_eq k v o : get k (set k v o) = Some v.
Proof.
  induction o as [|[k' v'] rest IH]; simpl.
  - now rewrite String.eqb_refl.
  - destruct (String.eqb k k') eqn:E; simpl; rewrite E; auto.
Qed.

Lemma get_set_neq k k' v o : k <> k' -> get k' (set k v o) = get k' o.
Proof.
  intros Hne.
  induction o as [|[k0 v0] rest IH]; simpl.
  - destruct (String.eqb k' k) eqn:E; auto.
    apply String.eqb_eq in E; congruence.
  - destruct (String.eqb k k0) eqn:E; simpl.
    + apply String.eqb_eq in E; subst k0.
      destruct (String.eqb k' k) eqn:E'; auto.
      apply String.eqb_eq in E'; congruence.
    + now rewrite IH.
Qed.

Lemma get_del_eq k o : get k (del k o) = None.
Proof.
  induction o as [|[k0 v0] rest IH]; simpl; auto.
  destruct (String.eqb k k0) eqn:E; simpl; auto.
  now rewrite E.
Qed.

Lemma get_del_neq k k' o : k <> k' -> get k' (del k o) = get k' o.
Proof.
  intros Hne.
  induction o as [|[k0 v0] rest IH]; simpl; auto.
  destruct (String.eqb k k0) eqn:E; simpl.
  - apply String.eqb_eq in E; subst k0.
    destruct (String.eqb k' k) eqn:E'; auto.
    apply String.eqb_eq in E'; congruence.
  - now rewrite IH.
Qed.

Lemma get_del_Some k k' v o : get k' (del k o) = Some v -> get k' o = Some v.
Proof.
  destruct (String.eqb k k') eqn:E.
  - apply String.eqb_eq in E; subst k'. now rewrite get_del_eq.
  - apply String.eqb_neq in E. now rewrite get_del_neq.
Qed.

End ObjFacts.

(** ** Comparisons *)

Lemma Rltb_true a b : Rltb a b = true <-> a < b.
Proof. unfold Rltb. destruct (Rlt_dec a b); split; intros; auto; discriminate. Qed.

Lemma Rltb_false a b : Rltb a b = false <-> b <= a.
Proof.
  unfold Rltb. destruct (Rlt_dec a b); split; intros; auto; try discriminate; lra.
Qed.

Lemma Rleb_true a b : Rleb a b = true <-> a <= b.
Proof. unfold Rleb. destruct (Rle_dec a b); split; intros; auto; discriminate. Qed.

Lemma Rleb_false a b : Rleb a b = false <-> b < a.
Proof.
  unfold Rleb. destruct (Rle_dec a b); split; intros; auto; try discriminate; lra.
Qed.

(** Case analysis on a comparison, leaving the fact in the context. *)
Ltac cmp a b :=
  let E := fresh "E" in
  destruct (Rltb a b) eqn:E;
  [apply Rltb_true in E | apply Rltb_false in E].

Ltac cmple a b :=
  let E := fresh "E" in
  destruct (Rleb a b) eqn:E;
  [apply Rleb_true in E | apply Rleb_false in E].

Ltac cmp_all :=
  repeat match goal with
         | |- context [Rltb ?a ?b] => cmp a b
         | |- context [Rleb ?a ?b] => cmple a b
         end.

(** ** World generator *)

Lemma Math_floor_bounds (v : R) : Math_floor v <= v < Math_floor v + 1.
Proof. unfold Math_floor. pose proof (base_Int_part v). lra. Qed.

Lemma Math_floor_IZR (k : Z) : Math_floor (IZR k) = IZR k.
Proof.
  unfold Math_floor. f_equal. symmetry. apply Int_part_spec. lra.
Qed.

Lemma rnd_range (s n : R) : 0 <= rnd s n < 1.
Proof.
  unfold rnd. cbv zeta.
  pose proof (Math_floor_bounds (sin ((n + s) * 12345.678) * 43758.5453)). lra.
Qed.

(** On a lattice point the interpolation weight is zero: the noise is the
    hash of that point. *)
Lemma noise1_lattice (s : R) (k : Z) : noise1 s (IZR k * 1.0) = rnd s (IZR k).
Proof.
  unfold noise1. cbv zeta.
  replace (IZR k * 1.0) with (IZR k) by lra.
  rewrite Math_floor_IZR. ring.
Qed.
Lemma half_life_factor : 0 < Rpower 0.5 DT < 1.
Proof.
  unfold Rpower. split; [apply exp_pos|].
  rewrite <- exp_0. apply exp_increasing.
  assert (ln 0.5 < 0).
  { rewrite <- ln_1. apply ln_increasing; lra. }
  unfold DT, TICK_HZ. nra.
Qed.

Lemma tickPlayer_speed seed now p :
  -10 <= speed (tickPlayer seed now p) <= 45.
Proof.
  unfold tickPlayer; cbv zeta; cbn [speed].
  unfold phys.maxSpeed.
  match goal with
  | |- context [Rltb 45 ?s] => generalize s; intros s2
  end.
  pose proof half_life_factor as Hh.
  match goal with
  | |- context [if ?c then _ * Rpower 0.5 DT else _] => destruct c eqn:Ec
  end.
  - apply andb_true_iff in Ec. destruct Ec as [_ Ec].
    revert Ec. cmp_all; intros Ec; try apply Rltb_true in Ec; nra.
  - cmp_all; lra.
Qed.

Lemma tickPlayer_maxFuel seed now p : maxFuel (tickPlayer seed now p) = maxFuel p.
Proof. reflexivity. Qed.

Lemma tickPlayer_fuel seed now p :
  0 <= fuel p <= maxFuel p ->
  0 <= fuel (tickPlayer seed now p) <= maxFuel p.
Proof.
  intros Hf.
  unfold tickPlayer; cbv zeta; cbn [fuel maxFuel].
  unfold DT, TICK_HZ, phys.fuelBurn.
  set (th := if (now - lastHeard p >? 10000)%Z then 0 else throttle p).
  (* the fuel left by the burn stage *)
  match goal with
  | |- context [if Rltb 0 th && ?c then ?a else ?b] =>
      set (f1 := if Rltb 0 th && c then a else b)
  end.
  assert (H1 : 0 <= f1 <= maxFuel p).
  { subst f1.
    destruct (Rltb 0 th) eqn:Eth; simpl; [apply Rltb_true in Eth | lra].
    match goal with |- context [if ?c then _ else _] => destruct c end;
      [|lra].
    match goal with
    | |- context [_ * th * ?k] =>
        assert (0 < k) by (destruct (Rleb _ _); lra); generalize dependent k
    end.
    intros k Hk. cmp_all; nra. }
  clearbody f1.
  repeat match goal with
         | |- context [if ?c then _ else _] =>
             lazymatch c with
             | Rltb _ _ => fail
             | Rleb _ _ => fail
             | _ => destruct c
             end
         end;
  cmp_all; lra.
Qed.

Lemma tickPlayer_bounded seed now p :
  0 <= fuel p <= maxFuel p -> bounded (tickPlayer seed now p).
Proof.
  intros Hf. split.
  - rewrite tickPlayer_maxFuel. now apply tickPlayer_fuel.
  - apply tickPlayer_speed.
Qed.


(** C6. [poiForY] looks at the 800-metre segment [k] that contains [y]; its
    hash [r] is the noise of [seed + 9999] at [k] (a value in [[0,1)]); the
    type follows the bands [[0,0.22)] gas, [[0.22,0.38)] hotel,
    [[0.38,0.54)] store, [[0.54,0.68)] town, otherwise none; the point lies
    17 metres from the centerline taken at the segment's midpoint, to the
    left when [r < 0.5] and to the right otherwise; its longitudinal
    position is the midpoint [800 k + 400]; the radius is 22 for a town and
    10 otherwise.  [poiForY] is a total function: every seed and position
    has a result. *)
Theorem poiForY_segment_bands_and_placement (seed y : R) :
  let p := poiForY seed y in
  let r := noise1 (seed + 9999) (poi_k p) in
  (exists k : Z, poi_k p = IZR k /\ IZR k * 800 <= y < (IZR k + 1) * 800) /\
  r = rnd (seed + 9999) (poi_k p) /\
  0 <= r < 1 /\
  ((r < 0.22 /\ poi_type p = gas) \/
   (0.22 <= r < 0.38 /\ poi_type p = hotel) \/
   (0.38 <= r < 0.54 /\ poi_type p = store) \/
   (0.54 <= r < 0.68 /\ poi_type p = town) \/
   (0.68 <= r /\ poi_type p = none)) /\
  ((r < 0.5 /\ poi_x p = roadCenterX seed (poi_y p) - 17) \/
   (0.5 <= r /\ poi_x p = roadCenterX seed (poi_y p) + 17)) /\
  poi_y p = poi_k p * 800 + 400 /\
  ((poi_type p = town /\ poi_radius p = 22) \/
   (PoiType_eqb (poi_type p) town = false /\ poi_radius p = 10)).
Proof.
  intros p r.
  assert (Hk : poi_k p = IZR (Int_part (y / SEG))) by reflexivity.
  assert (Hr : r = rnd (seed + 9999) (poi_k p)).
  { subst r. rewrite Hk.
    rewrite <- (noise1_lattice (seed + 9999) (Int_part (y / SEG))).
    f_equal. lra. }
  assert (Hr' : noise1 (seed + 9999) (Math_floor (y / SEG) * 1.0) = r).
  { subst r. rewrite Hk. unfold Math_floor. f_equal. lra. }
  pose proof (rnd_range (seed + 9999) (poi_k p)) as Hrange.
  rewrite <- Hr in Hrange.
  repeat split.
  - exists (Int_part (y / SEG)). split; [exact Hk|].
    pose proof (Math_floor_bounds (y / SEG)) as Hb.
    unfold Math_floor, SEG in *.
    replace y with (y / 800 * 800) at 2 3 by field.
    nra.
  - exact Hr.
  - lra.
  - lra.
  - subst p. unfold poiForY; cbv zeta; cbn [poi_type]. rewrite Hr'.
    cmp_all;
      [ left | right; left | right; right; left
      | right; right; right; left | right; right; right; right ];
      (split; [lra | reflexivity]).
  - subst p. unfold poiForY; cbv zeta; cbn [poi_x poi_y]. rewrite Hr'.
    cmp r 0.5; [left|right]; split; try lra.
  - subst p. unfold poiForY; cbv zeta; cbn [poi_k poi_y]. unfold SEG. lra.
  - subst p. unfold poiForY; cbv zeta; cbn [poi_type poi_radius].
    match goal with
    | |- context [PoiType_eqb ?t town] => destruct t; simpl; auto
    end.
Qed.

(** ** Coercion of input fields *)

Lemma Reqb_true a b : Reqb a b = true <-> a = b.
Proof. unfold Reqb. destruct (Req_dec_T a b); split; intros; auto; discriminate. Qed.

Lemma clampField_clamped S2N (lo hi : R) (v : jsval) (n : jsnum) :
  lo <= hi ->
  ToNumber S2N v = Some n ->
  exists r, clampField S2N lo hi v = Some (Fin r) /\ lo <= r <= hi /\
            clamped_to lo hi n r.
Proof.
  intros Hle Hn. unfold clampField, or_zero. rewrite Hn.
  destruct n as [| | |n]; simpl.
  - exists (Rmax lo (Rmin hi 0)). repeat split.
    + apply Rmax_l.
    + apply Rmax_lub; [lra | apply Rmin_l].
  - exists hi. repeat split; try lra.
    do 2 f_equal. apply Rmax_right; lra.
  - exists lo. repeat split; lra.
  - destruct (Reqb n 0) eqn:E; simpl.
    + apply Reqb_true in E; subst n.
      exists (Rmax lo (Rmin hi 0)). repeat split.
      * apply Rmax_l.
      * apply Rmax_lub; [lra | apply Rmin_l].
    + exists (Rmax lo (Rmin hi n)). repeat split.
      * apply Rmax_l.
      * apply Rmax_lub; [lra | apply Rmin_l].
Qed.

(** Whatever [clampField] returns is a finite number of the interval; it
    returns nothing exactly when the conversion throws. *)
Lemma clampField_Some S2N (lo hi : R) (v : jsval) (m : jsnum) :
  lo <= hi -> clampField S2N lo hi v = Some m -> lo <= finite m <= hi.
Proof.
  intros Hle Hm.
  destruct (ToNumber S2N v) as [n|] eqn:Hn.
  - destruct (clampField_clamped S2N lo hi v n Hle Hn) as (r & Hr & Hb & _).
    rewrite Hr in Hm. injection Hm as <-. exact Hb.
  - unfold clampField in Hm. rewrite Hn in Hm. discriminate.
Qed.

(** ** Handlers *)

Ltac run_js :=
  unfold step, exec, handle, bind, ret, getJoined, getRoom, setRoom,
    setJoined, send, nowMs, with_rooms; cbn [fst snd].

Section ServerFacts.

Variable Date_now : nat -> Z.
Variable Math_random : nat -> R.
Variable StringToNumber : string -> jsnum.

Local Abbreviation step := (step Date_now Math_random StringToNumber).
Local Abbreviation run := (run Date_now Math_random StringToNumber).
Local Abbreviation clampField := (clampField StringToNumber).
Local Abbreviation ToNumber := (ToNumber StringToNumber).

(** An [input] message that has a payload whose three numeric fields can
    be converted is taken as it is, whatever the fields hold: throttle and
    brake are stored clamped into [[0,1]] and steer into [[-1,1]] (a field
    that is missing or not a number counting as zero), refuel is stored as
    the truthiness of the field, the time of the message is stamped, and
    nothing is sent back. *)
Lemma readable_input_is_clamped
    (w : World) (sid jc : string) (r : Room) (p : Player) (data : InputData)
    (nth nbr nst : jsnum) :
  get sid (joinedCode w) = Some jc ->
  get jc (rooms w) = Some r ->
  get sid (players r) = Some p ->
  ToNumber (d_throttle data) = Some nth ->
  ToNumber (d_brake data) = Some nbr ->
  ToNumber (d_steer data) = Some nst ->
  exists r' p',
    get jc (rooms (step (Input sid (Some data)) w)) = Some r' /\
    get sid (players r') = Some p' /\
    clampField 0 1 (d_throttle data) = Some (Fin (throttle p')) /\
    clampField 0 1 (d_brake data) = Some (Fin (brake p')) /\
    clampField (-1) 1 (d_steer data) = Some (Fin (steer p')) /\
    0 <= throttle p' <= 1 /\
    0 <= brake p' <= 1 /\
    -1 <= steer p' <= 1 /\
    clamped_to 0 1 nth (throttle p') /\
    clamped_to 0 1 nbr (brake p') /\
    clamped_to (-1) 1 nst (steer p') /\
    refuel p' = ToBoolean (d_refuel data) /\
    lastHeard p' = Date_now (clockReads w) /\
    sent (step (Input sid (Some data)) w) = sent w.
Proof.
  intros Hj Hr Hp Hth Hbr Hst.
  destruct (clampField_clamped StringToNumber 0 1 (d_throttle data) nth)
    as (th & Eth & Bth & Cth); [lra|assumption|].
  destruct (clampField_clamped StringToNumber 0 1 (d_brake data) nbr)
    as (br & Ebr & Bbr & Cbr); [lra|assumption|].
  destruct (clampField_clamped StringToNumber (-1) 1 (d_steer data) nst)
    as (st & Est & Bst & Cst); [lra|assumption|].
  run_js. unfold on_input. run_js.
  rewrite Hj, Hr, Hp, Eth, Ebr, Est.
  cbn [snd rooms sent finite].
  eexists. eexists.
  split; [apply get_set_eq|].
  cbn [players with_players].
  split; [apply get_set_eq|].
  cbn [with_controls throttle brake steer refuel lastHeard].
  repeat split; auto; lra.
Qed.

(** An [input] message without payload, for an existing player, ends the
    handler with an uncaught [TypeError] and stores nothing. *)
Lemma input_without_payload_throws
    (w : World) (sid jc : string) (r : Room) (p : Player) :
  get sid (joinedCode w) = Some jc ->
  get jc (rooms w) = Some r ->
  get sid (players r) = Some p ->
  rooms (step (Input sid None) w) = rooms w /\
  sent (step (Input sid None) w)
  = (sent w ++ [Uncaught sid "TypeError"])%list.
Proof.
  intros Hj Hr Hp. run_js. unfold on_input, throw. run_js.
  rewrite Hj, Hr, Hp. split; reflexivity.
Qed.

(** An [input] message whose steer field has no conversion to a number,
    the other two being convertible, stores the clamped throttle and
    brake and then ends the handler with an uncaught [TypeError]: steer,
    refuel and the time of the last message are not written. *)
Lemma input_with_opaque_steer_throws
    (w : World) (sid jc : string) (r : Room) (p : Player) (data : InputData)
    (nth nbr : jsnum) :
  get sid (joinedCode w) = Some jc ->
  get jc (rooms w) = Some r ->
  get sid (players r) = Some p ->
  ToNumber (d_throttle data) = Some nth ->
  ToNumber (d_brake data) = Some nbr ->
  d_steer data = JOpaque ->
  exists r' p',
    get jc (rooms (step (Input sid (Some data)) w)) = Some r' /\
    get sid (players r') = Some p' /\
    clamped_to 0 1 nth (throttle p') /\
    clamped_to 0 1 nbr (brake p') /\
    steer p' = steer p /\
    refuel p' = refuel p /\
    lastHeard p' = lastHeard p /\
    sent (step (Input sid (Some data)) w)
    = (sent w ++ [Uncaught sid "TypeError"])%list.
Proof.
  intros Hj Hr Hp Hth Hbr Hst.
  destruct (clampField_clamped StringToNumber 0 1 (d_throttle data) nth)
    as (th & Eth & Bth & Cth); [lra|assumption|].
  destruct (clampField_clamped StringToNumber 0 1 (d_brake data) nbr)
    as (br & Ebr & Bbr & Cbr); [lra|assumption|].
  run_js. unfold on_input, throw. run_js.
  rewrite Hj, Hr, Hp, Eth, Ebr.
  rewrite Hst. cbn [snd rooms sent finite].
  eexists. eexists.
  split; [apply get_set_eq|].
  cbn [players with_players].
  split; [apply get_set_eq|].
  cbn [with_controls throttle brake steer refuel lastHeard].
  repeat split; auto.
Qed.

(** C7, on the code.  Bob is a player of the running demo room.  An
    [input] message without payload is not coerced: the handler ends with
    an uncaught [TypeError] at [data.throttle] and nothing is stored.  An
    [input] message whose steer field has no conversion to a number is not
    coerced either: throttle and brake are stored, then the handler ends
    with an uncaught [TypeError] at [+data.steer], so that steer stays as
    it was, refuel is not taken from the message and the time of the last
    message is not stamped. *)
Theorem input_that_cannot_be_converted_throws :
  (rooms (step (Input "sockB" None) (demo_world running))
   = rooms (demo_world running) /\
   sent (step (Input "sockB" None) (demo_world running))
   = [Uncaught "sockB" "TypeError"]) /\
  (exists r' p',
     get "ABC234"
       (rooms (step (Input "sockB" (Some opaque_input)) (demo_world running)))
     = Some r' /\
     get "sockB" (players r') = Some p' /\
     throttle p' = 1 /\
     brake p' = 1 /\
     steer p' = steer bob /\
     refuel p' = false /\
     ToBoolean (d_refuel opaque_input) = true /\
     lastHeard p' = lastHeard bob /\
     sent (step (Input "sockB" (Some opaque_input)) (demo_world running))
     = [Uncaught "sockB" "TypeError"]).
Proof.
  split.
  - exact (input_without_payload_throws (demo_world running) "sockB" "ABC234"
             (demo_room running) bob eq_refl eq_refl eq_refl).
  - destruct (input_with_opaque_steer_throws (demo_world running) "sockB"
                "ABC234" (demo_room running) bob opaque_input (Fin 1) (Fin 1)
                eq_refl eq_refl eq_refl eq_refl eq_refl eq_refl)
      as (r' & p' & Hr & Hp & Ht & Hb & Hs & Hf & Hl & Hsent).
    exists r', p'. simpl in Ht, Hb.
    assert (E : Rmax 0 (Rmin 1 1) = 1).
    { rewrite Rmin_left by lra. apply Rmax_right. lra. }
    rewrite E in Ht, Hb.
    repeat split; assumption.
Qed.

End ServerFacts.

Section HandlerFacts.

Variable Date_now : nat -> Z.
Variable Math_random : nat -> R.
Variable StringToNumber : string -> jsnum.

Local Abbreviation step := (step Date_now Math_random StringToNumber).

(** C10. The ready flag gates nothing.  [setReady] rewrites the ready
    field of the caller's record and nothing else: position, speed, fuel,
    distance and host flag of that player, every other player, the room's
    phase, seed and code, and every other room stay as they were.
    [startGame] by the host puts the room in phase running with its
    players untouched, whatever their ready flags are; by anyone else it
    changes nothing. *)
Theorem ready_flag_gates_nothing
    (w : World) (sid jc : string) (r : Room) (p : Player) (rdy : jsval) :
  get sid (joinedCode w) = Some jc ->
  get jc (rooms w) = Some r ->
  get sid (players r) = Some p ->
  (exists p',
      rooms (step (SetReady sid rdy) w)
      = set jc (with_players r (set sid p' (players r))) (rooms w) /\
      p' = with_ready p (ToBoolean rdy) /\
      ready p' = ToBoolean rdy /\
      x p' = x p /\ y p' = y p /\ angle p' = angle p /\
      speed p' = speed p /\ fuel p' = fuel p /\ maxFuel p' = maxFuel p /\
      distance p' = distance p /\ isHost p' = isHost p /\
      phase (with_players r (set sid p' (players r))) = phase r /\
      seed (with_players r (set sid p' (players r))) = seed r) /\
  rooms (step (StartGame sid) w)
  = (if isHost p then set jc (with_phase r running) (rooms w) else rooms w) /\
  players (with_phase r running) = players r /\
  phase (with_phase r running) = running.
Proof.
  intros Hj Hr Hp. split; [|split; [|split; reflexivity]].
  - exists (with_ready p (ToBoolean rdy)).
    split; [|repeat split; reflexivity].
    run_js. unfold on_setReady. run_js. rewrite Hj, Hr, Hp. reflexivity.
  - run_js. unfold on_startGame. run_js. rewrite Hj, Hr, Hp.
    destruct (isHost p); reflexivity.
Qed.

End HandlerFacts.

(** C10 on the demo lobby: nobody is ready and the host starts the game. *)
Lemma ready_flag_gates_nothing_demo :
  rooms (step clock0 random0 parse0 (StartGame "sockA") (demo_world lobby))
  = [("ABC234", demo_room running)].
Proof.
  pose proof (ready_flag_gates_nothing clock0 random0 parse0
                (demo_world lobby) "sockA" "ABC234" (demo_room lobby) alice
                (JBool true) eq_refl eq_refl eq_refl) as [_ [H _]].
  exact H.
Defined.

Section JoinFacts.

Variable Date_now : nat -> Z.
Variable Math_random : nat -> R.
Variable StringToNumber : string -> jsnum.

Local Abbreviation step := (step Date_now Math_random StringToNumber).

(** C4. [joinRoom] looks the normalised code up.  An unknown code is
    refused with "Room not found.", a room that is not in the lobby with
    "Game already started.", a lobby holding 12 or more players with
    "Room full."; the checks are made in this order.  A refusal is sent
    to the requesting connection only and leaves every room and player
    record as it was.  Otherwise a fresh record, not host, is stored
    under the connection's id, the other players and rooms are kept, the
    connection is in the room, and the room's snapshot goes to the
    connection ("joined") and to the room ("lobby"). *)
Theorem joinRoom_outcomes
    (w : World) (sid : string) (code0 nm col : option string) :
  let c := normalizeCode code0 in
  let w' := step (JoinRoom sid code0 nm col) w in
  (get c (rooms w) = None /\ refused sid "Room not found." w w') \/
  (exists room, get c (rooms w) = Some room /\ phase room = running /\
                refused sid "Game already started." w w') \/
  (exists room, get c (rooms w) = Some room /\ phase room = lobby /\
                (12 <= List.length (players room))%nat /\
                refused sid "Room full." w w') \/
  (exists room p,
      get c (rooms w) = Some room /\ phase room = lobby /\
      (List.length (players room) < 12)%nat /\
      p = freshPlayer sid (playerName nm) (playerColor col "#f6a93b")
            (Date_now (clockReads w)) /\
      isHost p = false /\
      let room' := with_players room (set sid p (players room)) in
      rooms w' = set c room' (rooms w) /\
      get c (rooms w') = Some room' /\
      get sid (players room') = Some p /\
      joinedCode w' = set sid c (joinedCode w) /\
      sent w' = (sent w ++
                 [SocketJoin sid c;
                  SocketEmit sid "joined" (PJoined (snapshotRoom room') sid);
                  RoomEmit c "lobby" (PSnapshot (snapshotRoom room'))])%list).
Proof.
  intros c w'. subst w'. fold c.
  run_js. unfold on_joinRoom. run_js. fold c.
  destruct (get c (rooms w)) as [room|] eqn:Hroom.
  - right.
    destruct (phase room) eqn:Hph; cbn [Phase_eqb negb].
    + right.
      unfold keys. rewrite length_map.
      destruct (12 <=? List.length (players room))%nat eqn:Hn.
      * left. exists room. apply Nat.leb_le in Hn.
        repeat split; auto.
      * right. apply Nat.leb_gt in Hn.
        eexists room, _. unfold makePlayer. run_js.
        split; [reflexivity|]. split; [assumption|]. split; [assumption|].
        split; [reflexivity|]. split; [reflexivity|].
        cbv zeta. cbn [rooms joinedCode sent].
        split; [reflexivity|].
        split; [apply get_set_eq|].
        split; [apply get_set_eq|].
        split; [reflexivity|].
        repeat rewrite <- app_assoc. reflexivity.
    + left. exists room. repeat split; auto.
  - left. repeat split; auto.
Qed.

End JoinFacts.

Section DepartureFacts.

Variable Date_now : nat -> Z.
Variable Math_random : nat -> R.
Variable StringToNumber : string -> jsnum.

Local Abbreviation step := (step Date_now Math_random StringToNumber).

(** What [leaveRoom] does to the room: the caller's record is deleted and
    every other record is kept as it is, host flags included. *)
Lemma leaveRoom_players (w : World) (sid jc : string) (r : Room) :
  get sid (joinedCode w) = Some jc ->
  get jc (rooms w) = Some r ->
  exists r', get jc (rooms (step (LeaveRoom sid) w)) = Some r' /\
             players r' = del sid (players r) /\
             phase r' = phase r.
Proof.
  intros Hj Hr. run_js. unfold on_leaveRoom. run_js. rewrite Hj, Hr.
  cbn [players with_players].
  destruct (List.length (keys (del sid (players r))) =? 0)%nat;
    cbn [snd rooms]; eexists; (split; [apply get_set_eq|]);
    split; reflexivity.
Qed.

(** What [disconnect] does to the room: the caller's record is deleted
    and, when it carried the host flag, the first remaining record gets
    the flag. *)
Lemma disconnect_players (w : World) (sid jc : string) (r : Room) :
  get sid (joinedCode w) = Some jc ->
  get jc (rooms w) = Some r ->
  exists r', get jc (rooms (step (Disconnect sid) w)) = Some r' /\
             players r'
             = (if match get sid (players r) with
                   | Some p => isHost p
                   | None => false
                   end
                then promoteFirst (del sid (players r))
                else del sid (players r)) /\
             phase r' = phase r.
Proof.
  intros Hj Hr. run_js. unfold on_disconnect. run_js. rewrite Hj, Hr.
  cbn [players with_players].
  match goal with
  | |- context [(List.length ?l =? 0)%nat] =>
      destruct (List.length l =? 0)%nat
  end;
    cbn [snd rooms]; eexists; (split; [apply get_set_eq|]);
    split; reflexivity.
Qed.

(** What [disconnect] sends when somebody remains: in the lobby the room's
    snapshot, in a running room the remaining player records themselves. *)
Lemma disconnect_sends (w : World) (sid jc : string) (r : Room) :
  get sid (joinedCode w) = Some jc ->
  get jc (rooms w) = Some r ->
  exists r', get jc (rooms (step (Disconnect sid) w)) = Some r' /\
             sent (step (Disconnect sid) w)
             = (sent w ++
                match players r', phase r' with
                | [], _ => []
                | _ :: _, lobby =>
                    [RoomEmit (code r') "lobby" (PSnapshot (snapshotRoom r'))]
                | _ :: _, running =>
                    [RoomEmit (code r') "state" (PPlayers (values (players r')))]
                end)%list.
Proof.
  intros Hj Hr. run_js. unfold on_disconnect. run_js. rewrite Hj, Hr.
  cbn [players with_players phase code].
  match goal with
  | |- context [with_players r ?ps] => destruct ps as [|kp rest] eqn:Hps
  end.
  - cbn [keys map List.length Nat.eqb snd rooms sent].
    eexists. split; [apply get_set_eq|].
    cbn [players with_createdAt with_players]. now rewrite app_nil_r.
  - cbn [keys map List.length Nat.eqb snd rooms sent].
    eexists. split; [apply get_set_eq|].
    cbn [players with_players phase code].
    destruct (phase r); reflexivity.
Qed.

(** The handoff of [disconnect]: when the host goes and somebody remains,
    the first remaining player in iteration order is host afterwards. *)
Lemma disconnect_hands_host_over
    (w : World) (sid jc k : string) (r : Room) (p q : Player)
    (rest : obj Player) :
  get sid (joinedCode w) = Some jc ->
  get jc (rooms w) = Some r ->
  get sid (players r) = Some p ->
  isHost p = true ->
  del sid (players r) = (k, q) :: rest ->
  exists r', get jc (rooms (step (Disconnect sid) w)) = Some r' /\
             players r' = (k, with_isHost q true) :: rest.
Proof.
  intros Hj Hr Hp Hh Hd.
  destruct (disconnect_players w sid jc r Hj Hr) as (r' & Hg & Hps & _).
  exists r'. split; [exact Hg|].
  rewrite Hps, Hp, Hh, Hd. reflexivity.
Qed.

(** C1, on the code.  Alice is host of the demo lobby and Bob is the
    other player.  When Alice disconnects, Bob becomes host.  When Alice
    sends [leaveRoom], Bob's record is left as it was: the room keeps a
    player and has no host. *)
Theorem leaveRoom_by_host_leaves_room_without_host :
  rooms (step (Disconnect "sockA") (demo_world lobby))
  = [("ABC234",
      with_players (demo_room lobby) [("sockB", with_isHost bob true)])] /\
  rooms (step (LeaveRoom "sockA") (demo_world lobby))
  = [("ABC234", with_players (demo_room lobby) [("sockB", bob)])] /\
  existsb isHost (values [("sockB", bob)]) = false.
Proof. repeat split. Qed.

(** C9, on the code.  The demo room is running and Bob disconnects: the
    room is sent a [state] message whose payload is the list of the
    remaining internal player records.  The same departure by
    [leaveRoom] sends the room its snapshot. *)
Theorem disconnect_in_running_room_sends_player_records :
  sent (step (Disconnect "sockB") (demo_world running))
  = [RoomEmit "ABC234" "state" (PPlayers [alice])] /\
  sent (step (LeaveRoom "sockB") (demo_world running))
  = [SocketLeave "sockB" "ABC234";
     RoomEmit "ABC234" "lobby"
       (PSnapshot
          (snapshotRoom
             (with_players (demo_room running) [("sockA", alice)])))].
Proof. split; reflexivity. Qed.

End DepartureFacts.

(** ** Evolution of dictionaries *)

Section EvolvesFacts.
Context {V : Type} (R : V -> V -> Prop).
Hypothesis R_refl : forall v, R v v.
Hypothesis R_trans : forall a b c, R a b -> R b c -> R a c.

Lemma get_set (k k' : string) (v : V) (o : obj V) :
  get k' (set k v o) = if String.eqb k k' then Some v else get k' o.
Proof.
  destruct (String.eqb k k') eqn:E.
  - apply String.eqb_eq in E; subst. apply get_set_eq.
  - apply String.eqb_neq in E. now apply get_set_neq.
Qed.

Lemma get_del (k k' : string) (o : obj V) :
  get k' (del k o) = if String.eqb k k' then None else get k' o.
Proof.
  destruct (String.eqb k k') eqn:E.
  - apply String.eqb_eq in E; subst. apply get_del_eq.
  - apply String.eqb_neq in E. now apply get_del_neq.
Qed.

Lemma evolves_refl (o : obj V) : evolves R o o.
Proof. intros k v H. exists v. auto. Qed.

Lemma evolves_trans (a b c : obj V) :
  evolves R a b -> evolves R b c -> evolves R a c.
Proof.
  intros Hab Hbc k v'' H.
  destruct (Hbc k v'' H) as (v' & H' & R').
  destruct (Hab k v' H') as (v & H0 & R0).
  exists v. split; [assumption|]. eapply R_trans; eassumption.
Qed.

Lemma evolves_set (k : string) (v v' : V) (o : obj V) :
  get k o = Some v -> R v v' -> evolves R o (set k v' o).
Proof.
  intros Hk HR k' w. rewrite get_set.
  destruct (String.eqb k k') eqn:E.
  - apply String.eqb_eq in E; subst k'. intros [= <-]. exists v. auto.
  - intros H. exists w. auto.
Qed.

Lemma evolves_del (k : string) (o : obj V) : evolves R o (del k o).
Proof.
  intros k' w H. apply get_del_Some in H. exists w. auto.
Qed.

(** A loop that rewrites every value in place. *)
Lemma evolves_pointwise (o o' : obj V) :
  Forall2 (fun kv kv' => fst kv' = fst kv /\ R (snd kv) (snd kv')) o o' ->
  evolves R o o'.
Proof.
  induction 1 as [|[k v] [k' v'] o o' [Hk Hv] _ IH]; intros c w; simpl.
  - discriminate.
  - simpl in Hk, Hv. subst k'.
    destruct (String.eqb c k).
    + intros [= <-]. exists v. auto.
    + apply IH.
Qed.
End EvolvesFacts.

Lemma player_le_refl p : player_le p p.
Proof. unfold player_le. split; [lra | auto]. Qed.

Lemma player_le_trans a b c : player_le a b -> player_le b c -> player_le a c.
Proof. unfold player_le. intros [] []. split; [lra | auto]. Qed.

Lemma room_le_refl r : room_le r r.
Proof.
  repeat split; auto. apply evolves_refl, player_le_refl.
Qed.

Lemma room_le_trans a b c : room_le a b -> room_le b c -> room_le a c.
Proof.
  intros (P1 & S1 & E1) (P2 & S2 & E2). repeat split; auto.
  - congruence.
  - eapply evolves_trans; eauto using player_le_trans.
Qed.

Lemma tickPlayer_distance seed now p :
  distance (tickPlayer seed now p)
  = (if Rltb 0 (y (tickPlayer seed now p) - y p)
     then distance p + (y (tickPlayer seed now p) - y p)
     else distance p).
Proof.
  unfold tickPlayer; cbv zeta; cbn [y distance].
  match goal with
  | |- context [y p + ?dy - y p] => replace (y p + dy - y p) with dy by ring
  end.
  reflexivity.
Qed.

Lemma tickPlayer_le seed now p : player_le p (tickPlayer seed now p).
Proof.
  split.
  - rewrite tickPlayer_distance. cmp_all; lra.
  - intros [Hf _]. now apply tickPlayer_bounded.
Qed.

(** ** The timer callback *)

Section IntervalFacts.

Variable Date_now : nat -> Z.
Variable Math_random : nat -> R.
Variable StringToNumber : string -> jsnum.

Local Abbreviation tickPlayers := (tickPlayers Date_now).
Local Abbreviation tickRoom := (tickRoom Date_now).
Local Abbreviation tickRooms := (tickRooms Date_now).
Local Abbreviation step := (step Date_now Math_random StringToNumber).
Local Abbreviation run := (run Date_now Math_random StringToNumber).

(** The loop over the players keeps the keys and their order, steps
    every record once and leaves the registry alone. *)
Lemma tickPlayers_spec (sd : R) (ps : obj Player) (w : World) :
  rooms (snd (tickPlayers sd ps w)) = rooms w /\
  Forall2 (fun kp kp' => fst kp' = fst kp /\
                         player_le (snd kp) (snd kp'))
          ps (fst (tickPlayers sd ps w)).
Proof.
  revert w. induction ps as [|[k p] rest IH]; intros w.
  - split; [reflexivity | constructor].
  - simpl. unfold bind, nowMs, ret.
    match goal with
    | |- context [tickPlayers sd rest ?w1] =>
        destruct (IH w1) as [Hr Hf];
        destruct (tickPlayers sd rest w1) as [rest' w2]
    end.
    cbn [fst snd] in *. split; [exact Hr|].
    constructor; [|exact Hf].
    split; [reflexivity | apply tickPlayer_le].
Qed.

Lemma tickRoom_spec (r : Room) (w : World) :
  rooms (snd (tickRoom r w)) = rooms w /\
  room_le r (fst (tickRoom r w)).
Proof.
  unfold tickRoom.
  unfold bind, ret, nowMs, send.
  destruct (tickPlayers_spec (seed r) (players r) w) as [Hr Hf].
  destruct (tickPlayers (seed r) (players r) w) as [ps w1].
  cbn [fst snd rooms] in *. split; [exact Hr|].
  repeat split; auto.
  cbn [players with_players].
  apply evolves_pointwise. exact Hf.
Qed.

Lemma tickRooms_evolves (codes : list string) (w : World) :
  evolves room_le (rooms w) (rooms (snd (tickRooms codes w))).
Proof.
  revert w. induction codes as [|c rest IH]; intros w.
  - apply evolves_refl, room_le_refl.
  - simpl. unfold bind, getRoom, ret, setRoom.
    destruct (get c (rooms w)) as [r|] eqn:Hc; [|apply IH].
    destruct (Phase_eqb (phase r) running).
    + destruct (tickRoom_spec r w) as [Hr Hle].
      destruct (tickRoom r w) as [r' w1]. cbn [fst snd] in *.
      eapply evolves_trans; [apply room_le_trans| |apply IH].
      unfold with_rooms; cbn [rooms]. rewrite Hr.
      eapply evolves_set; eauto using room_le_refl.
    + apply IH.
Qed.

Lemma destroyEmptyStaleRooms_from_evolves (t : Z) (codes : list string)
    (w : World) :
  evolves room_le (rooms w)
          (rooms (snd (destroyEmptyStaleRooms_from t codes w))).
Proof.
  revert w. induction codes as [|c rest IH]; intros w.
  - apply evolves_refl, room_le_refl.
  - simpl. unfold bind, getRoom, ret, deleteRoom.
    destruct (get c (rooms w)) as [r|] eqn:Hc; [|apply IH].
    match goal with |- context [if ?b then _ else _] => destruct b end.
    + eapply evolves_trans; [apply room_le_trans| |apply IH].
      unfold with_rooms; cbn [rooms].
      apply evolves_del, room_le_refl.
    + apply IH.
Qed.

Lemma interval_evolves (w : World) :
  evolves room_le (rooms w) (rooms (step Interval w)).
Proof.
  run_js. unfold interval, destroyEmptyStaleRooms, roomKeys. run_js.
  pose proof (tickRooms_evolves (keys (rooms w)) w) as H1.
  destruct (tickRooms (keys (rooms w)) w) as [[] w1]. cbn [snd] in *.
  eapply evolves_trans; [apply room_le_trans|exact H1|].
  match goal with
  | |- context [destroyEmptyStaleRooms_from ?t ?cs ?w2] =>
      pose proof (destroyEmptyStaleRooms_from_evolves t cs w2) as H2
  end.
  exact H2.
Qed.

End IntervalFacts.

(** ** Every handler, seen from a room *)

Lemma evolves_promoteFirst (ps : obj Player) :
  evolves player_le ps (promoteFirst ps).
Proof.
  destruct ps as [|[k p] rest]; intros c q; simpl; [discriminate|].
  destruct (String.eqb c k).
  - intros [= <-]. exists p. split; [reflexivity|].
    split; [simpl; lra | auto].
  - intros H. exists q. split; [assumption | apply player_le_refl].
Qed.

Lemma room_le_players (r : Room) (ps : obj Player) :
  evolves player_le (players r) ps -> room_le r (with_players r ps).
Proof. intros H. repeat split; auto. Qed.

Lemma room_le_set_player (r : Room) (sid : string) (p p' : Player) :
  get sid (players r) = Some p -> player_le p p' ->
  room_le r (with_players r (set sid p' (players r))).
Proof.
  intros Hp Hle. apply room_le_players.
  eapply evolves_set; eauto using player_le_refl.
Qed.

Lemma room_le_createdAt (r : Room) (t : Z) : room_le r (with_createdAt r t).
Proof.
  repeat split; auto. apply evolves_refl, player_le_refl.
Qed.

Lemma room_le_phase (r : Room) : room_le r (with_phase r running).
Proof.
  repeat split; auto. apply evolves_refl, player_le_refl.
Qed.

Lemma evolves_set_twice (rs : obj Room) (c : string) (r r1 r2 : Room) :
  get c rs = Some r -> room_le r r1 -> room_le r1 r2 ->
  evolves room_le rs (set c r2 (set c r1 rs)).
Proof.
  intros Hc H1 H2.
  eapply evolves_trans; [apply room_le_trans| |].
  - eapply evolves_set; eauto using room_le_refl.
  - eapply evolves_set; eauto using room_le_refl. apply get_set_eq.
Qed.

Section StepFacts.

Variable Date_now : nat -> Z.
Variable Math_random : nat -> R.
Variable StringToNumber : string -> jsnum.

Local Abbreviation step := (step Date_now Math_random StringToNumber).
Local Abbreviation run := (run Date_now Math_random StringToNumber).

(** An event that adds no player leaves in the registry only rooms that
    were there, each later in its life. *)
Lemma step_evolves (e : Event) (w : World) :
  adds_player e = false ->
  evolves room_le (rooms w) (rooms (step e w)).
Proof.
  destruct e; cbn [adds_player]; try discriminate; intros _.
  - (* pingCheck *) apply evolves_refl, room_le_refl.
  - (* setReady *)
    run_js. unfold on_setReady. run_js.
    destruct (get sid (joinedCode w)) as [jc|];
      [|apply evolves_refl, room_le_refl].
    destruct (get jc (rooms w)) as [r|] eqn:Hr;
      [|apply evolves_refl, room_le_refl].
    destruct (get sid (players r)) as [p|] eqn:Hp;
      [|apply evolves_refl, room_le_refl].
    cbn [snd rooms].
    eapply evolves_set; eauto using room_le_refl.
    eapply room_le_set_player; eauto.
    split; [simpl; lra | auto].
  - (* startGame *)
    run_js. unfold on_startGame. run_js.
    destruct (get sid (joinedCode w)) as [jc|];
      [|apply evolves_refl, room_le_refl].
    destruct (get jc (rooms w)) as [r|] eqn:Hr;
      [|apply evolves_refl, room_le_refl].
    destruct (get sid (players r)) as [p|] eqn:Hp;
      [|apply evolves_refl, room_le_refl].
    destruct (isHost p); cbn [negb snd rooms];
      [|apply evolves_refl, room_le_refl].
    eapply evolves_set; eauto using room_le_refl, room_le_phase.
  - (* input *)
    run_js. unfold on_input, throw. run_js.
    destruct (get sid (joinedCode w)) as [jc|];
      [|apply evolves_refl, room_le_refl].
    destruct (get jc (rooms w)) as [r|] eqn:Hr;
      [|apply evolves_refl, room_le_refl].
    destruct (get sid (players r)) as [p|] eqn:Hp;
      [|apply evolves_refl, room_le_refl].
    destruct data as [data|]; [|apply evolves_refl, room_le_refl].
    destruct (clampField StringToNumber 0 1 (d_throttle data));
      [|apply evolves_refl, room_le_refl].
    destruct (clampField StringToNumber 0 1 (d_brake data));
      [destruct (clampField StringToNumber (-1) 1 (d_steer data))|];
      cbn [snd rooms];
      (eapply evolves_set; eauto using room_le_refl;
       eapply room_le_set_player; eauto;
       split; [simpl; lra | auto]).
  - (* leaveRoom *)
    run_js. unfold on_leaveRoom. run_js.
    destruct (get sid (joinedCode w)) as [jc|];
      [|apply evolves_refl, room_le_refl].
    destruct (get jc (rooms w)) as [r|] eqn:Hr;
      [|apply evolves_refl, room_le_refl].
    assert (H1 : room_le r (with_players r (del sid (players r)))).
    { apply room_le_players, evolves_del, player_le_refl. }
    match goal with |- context [if ?b then _ else _] => destruct b end;
      cbn [snd rooms].
    + eapply evolves_set_twice; eauto using room_le_createdAt.
    + eapply evolves_set; eauto using room_le_refl.
  - (* disconnect *)
    run_js. unfold on_disconnect. run_js.
    destruct (get sid (joinedCode w)) as [jc|];
      [|apply evolves_refl, room_le_refl].
    destruct (get jc (rooms w)) as [r|] eqn:Hr;
      [|apply evolves_refl, room_le_refl].
    match goal with
    | |- context [with_players r ?ps] =>
        assert (H1 : room_le r (with_players r ps))
    end.
    { apply room_le_players.
      match goal with |- context [if ?b then _ else _] => destruct b end.
      - eapply evolves_trans;
          [apply player_le_trans
          |apply evolves_del, player_le_refl
          |apply evolves_promoteFirst].
      - apply evolves_del, player_le_refl. }
    match goal with
    | |- context [if (?n =? 0)%nat then _ else _] => destruct (n =? 0)%nat
    end; cbn [snd rooms].
    + eapply evolves_set_twice; eauto using room_le_createdAt.
    + eapply evolves_set; eauto using room_le_refl.
  - (* the timer *) apply interval_evolves.
Qed.

End StepFacts.

Lemma freshPlayer_bounded sid nm col t : bounded (freshPlayer sid nm col t).
Proof. unfold bounded; simpl; lra. Qed.

Lemma room_le_grows r r' : room_le r r' -> room_grows r r'.
Proof.
  intros (Hp & Hs & He). split; [assumption|]. split; [assumption|].
  intros sid p' H. left. auto.
Qed.

Section CreateFacts.

Variable Date_now : nat -> Z.
Variable Math_random : nat -> R.
Variable StringToNumber : string -> jsnum.

Local Abbreviation step := (step Date_now Math_random StringToNumber).
Local Abbreviation makeCode_from := (makeCode_from Math_random).
Local Abbreviation freshCode := (freshCode Math_random).

Lemma makeCode_from_rooms (len : nat) (s : string) (w : World) :
  rooms (snd (makeCode_from len s w)) = rooms w.
Proof.
  revert s w. induction len as [|len IH]; intros s w; [reflexivity|].
  simpl. unfold bind, random. rewrite IH. reflexivity.
Qed.

(** The code [createRoom] settles on is not in use, and looking for it
    leaves the registry alone. *)
Lemma freshCode_spec (fuel : nat) (w : World) :
  rooms (snd (freshCode fuel w)) = rooms w /\
  match fst (freshCode fuel w) with
  | Some c => get c (rooms w) = None
  | None => True
  end.
Proof.
  revert w. induction fuel as [|fuel IH]; intros w; simpl;
    unfold bind, makeCode, getRoom, ret;
    pose proof (makeCode_from_rooms 6 "" w) as Hm;
    destruct (makeCode_from 6 "" w) as [c w1]; cbn [snd] in Hm;
    destruct (get c (rooms w1)) eqn:Hc; cbn [fst snd];
    rewrite Hm in *; auto.
  specialize (IH w1). rewrite Hm in IH. exact IH.
Qed.

(** Seen from a room, any event either took the room from one that was
    there, later in its life and possibly with players just made, or put
    a new lobby there whose players are within bounds. *)
Lemma step_rooms (e : Event) (w : World) (c : string) (r' : Room) :
  get c (rooms (step e w)) = Some r' ->
  (exists r, get c (rooms w) = Some r /\ room_grows r r') \/
  (get c (rooms w) = None /\ phase r' = lobby /\
   forall sid p', get sid (players r') = Some p' -> bounded p').
Proof.
  destruct (adds_player e) eqn:Ha.
  2:{ intros H. left.
      destruct (step_evolves Date_now Math_random StringToNumber e w Ha c r' H)
        as (r & Hr & Hle).
      exists r. split; [assumption | now apply room_le_grows]. }
  assert (Hsame : forall r0, get c (rooms w) = Some r0 ->
              (exists r, get c (rooms w) = Some r /\ room_grows r r0) \/
              (get c (rooms w) = None /\ phase r0 = lobby /\
               forall sid p', get sid (players r0) = Some p' -> bounded p')).
  { intros r0 H0. left. exists r0. split; [assumption|].
    apply room_le_grows, room_le_refl. }
  destruct e as [| sid nm col n | sid code0 nm col | | | | | |];
    try discriminate.
  - (* createRoom *)
    run_js. unfold on_createRoom, createRoom, makePlayer. run_js.
    destruct (freshCode_spec n w) as [Hr Hf].
    destruct (freshCode n w) as [[c0|] w1]; cbn [fst snd] in *;
      [|rewrite Hr; apply Hsame].
    unfold random. cbn [rooms code players with_players fst snd].
    rewrite Hr. rewrite !get_set.
    destruct (String.eqb c0 c) eqn:E; [|apply Hsame].
    apply String.eqb_eq in E; subst c0.
    intros [= <-]. right. split; [assumption|]. split; [reflexivity|].
    intros sid' p'. cbn [players with_players set].
    simpl. destruct (String.eqb sid' sid); [|discriminate].
    intros [= <-]. unfold bounded; simpl; lra.
  - (* joinRoom *)
    run_js. unfold on_joinRoom, makePlayer. run_js.
    set (c0 := normalizeCode code0).
    destruct (get c0 (rooms w)) as [room|] eqn:Hroom; [|apply Hsame].
    destruct (negb (Phase_eqb (phase room) lobby)); [apply Hsame|].
    destruct (12 <=? List.length (keys (players room)))%nat; [apply Hsame|].
    cbn [snd rooms]. rewrite get_set.
    destruct (String.eqb c0 c) eqn:E; [|apply Hsame].
    apply String.eqb_eq in E; subst c.
    intros [= <-]. left. exists room. split; [assumption|].
    repeat split; auto.
    intros sid' p'. cbn [players with_players]. rewrite get_set.
    destruct (String.eqb sid sid').
    + intros [= <-]. right. unfold bounded; simpl; lra.
    + intros H. left. exists p'. split; [assumption | apply player_le_refl].
Qed.

End CreateFacts.

(** ** Invariants of the simulation *)

Section RunFacts.

Variable Date_now : nat -> Z.
Variable Math_random : nat -> R.
Variable StringToNumber : string -> jsnum.

Local Abbreviation step := (step Date_now Math_random StringToNumber).
Local Abbreviation run := (run Date_now Math_random StringToNumber).

Lemma step_bounded (e : Event) (w : World) :
  every_player bounded w -> every_player bounded (step e w).
Proof.
  intros Hw c r' sid p' Hc Hp.
  destruct (step_rooms Date_now Math_random StringToNumber e w c r' Hc)
    as [(r & Hr & _ & _ & Hps) | (_ & _ & Hnew)]; [|eauto].
  destruct (Hps sid p' Hp) as [(p & Hq & _ & Hb) | Hb]; [|exact Hb].
  apply Hb. eapply Hw; eauto.
Qed.

(** C2. Whatever happens to the server (ticks of the timer, input
    messages with any content, players that come and go), fuel and speed
    of every player stay within their bounds:
    [0 <= fuel <= maxFuel] and [-10 <= speed <= 45]. *)
Theorem fuel_and_speed_stay_bounded (es : list Event) (w : World) :
  every_player bounded w -> every_player bounded (run es w).
Proof.
  revert w. induction es as [|e es IH]; intros w Hw; [exact Hw|].
  apply IH. now apply step_bounded.
Qed.

Lemma run_evolves (es : list Event) (w : World) :
  forallb (fun e => negb (adds_player e)) es = true ->
  evolves room_le (rooms w) (rooms (run es w)).
Proof.
  revert w. induction es as [|e es IH]; intros w Hes.
  - apply evolves_refl, room_le_refl.
  - simpl in Hes. apply andb_true_iff in Hes. destruct Hes as [He Hes].
    apply negb_true_iff in He.
    eapply evolves_trans; [apply room_le_trans| |apply IH, Hes].
    now apply step_evolves.
Qed.

(** C8. One step of the simulation adds the longitudinal displacement
    [dy = y' - y] to the recorded distance when [dy > 0] and leaves the
    distance as it is otherwise.  So, along any run of the server in
    which no player joins, every player's recorded distance is at least
    what it was at the start. *)
Theorem distance_never_decreases
    (es : list Event) (w : World) (c sid : string) (r' : Room) (p' : Player) :
  forallb (fun e => negb (adds_player e)) es = true ->
  get c (rooms (run es w)) = Some r' ->
  get sid (players r') = Some p' ->
  (exists r p, get c (rooms w) = Some r /\ get sid (players r) = Some p /\
               distance p <= distance p') /\
  (forall sd now q,
      let q' := tickPlayer sd now q in
      let dy := y q' - y q in
      distance q' = (if Rltb 0 dy then distance q + dy else distance q) /\
      distance q <= distance q').
Proof.
  intros Hes Hc Hp. split.
  - destruct (run_evolves es w Hes c r' Hc) as (r & Hr & _ & _ & Hps).
    destruct (Hps sid p' Hp) as (p & Hq & Hd & _).
    exists r, p. auto.
  - intros sd now q q' dy. split.
    + apply tickPlayer_distance.
    + apply tickPlayer_le.
Qed.

(** C3. No event takes a running room back to the lobby: whatever
    happens (start, input, ready, join, create, leave, disconnect, tick
    and sweep), a room that was running and is still in the registry is
    running.  In particular a departure, of the host or of anyone, keeps
    the room in the registry and running. *)
Theorem phase_never_returns_to_lobby (w : World) (c : string) (r : Room) :
  get c (rooms w) = Some r ->
  phase r = running ->
  (forall e r', get c (rooms (step e w)) = Some r' -> phase r' = running) /\
  (forall sid, exists r1 r2,
      get c (rooms (step (LeaveRoom sid) w)) = Some r1 /\
      phase r1 = running /\
      get c (rooms (step (Disconnect sid) w)) = Some r2 /\
      phase r2 = running).
Proof.
  intros Hc Hrun.
  assert (Hstep : forall e r', get c (rooms (step e w)) = Some r' ->
                               phase r' = running).
  { intros e r' H.
    destruct (step_rooms Date_now Math_random StringToNumber e w c r' H)
      as [(r0 & Hr0 & Hph & _) | (Hnone & _)]; [|congruence].
    apply Hph. congruence. }
  split; [exact Hstep|].
  intros sid.
  assert (HL : exists r1, get c (rooms (step (LeaveRoom sid) w)) = Some r1).
  { run_js. unfold on_leaveRoom. run_js.
    destruct (get sid (joinedCode w)) as [jc|]; [|eauto].
    destruct (get jc (rooms w)) as [r0|] eqn:Hr0; [|eauto].
    match goal with |- context [if ?b then _ else _] => destruct b end;
      cbn [snd rooms]; rewrite !get_set;
      destruct (String.eqb jc c); eauto. }
  assert (HD : exists r2, get c (rooms (step (Disconnect sid) w)) = Some r2).
  { run_js. unfold on_disconnect. run_js.
    destruct (get sid (joinedCode w)) as [jc|]; [|eauto].
    destruct (get jc (rooms w)) as [r0|] eqn:Hr0; [|eauto].
    match goal with
    | |- context [if (?n =? 0)%nat then _ else _] => destruct (n =? 0)%nat
    end;
      cbn [snd rooms]; rewrite !get_set;
      destruct (String.eqb jc c); eauto. }
  destruct HL as [r1 H1]. destruct HD as [r2 H2].
  exists r1, r2. repeat split; eauto.
Qed.

End RunFacts.

(** ** The statements on the demo room *)

Lemma demo_world_bounded ph : every_player bounded (demo_world ph).
Proof.
  intros c r sid p. simpl.
  destruct (String.eqb c "ABC234"); [|discriminate].
  intros [= <-]. simpl.
  destruct (String.eqb sid "sockA"); [intros [= <-]; unfold bounded; simpl; lra|].
  destruct (String.eqb sid "sockB"); [intros [= <-]; unfold bounded; simpl; lra|].
  discriminate.
Qed.

(** C2 on the demo room: Bob floors the throttle, the timer ticks twice. *)
Lemma fuel_and_speed_stay_bounded_demo :
  exists r p,
    get "ABC234"
      (rooms (run clock0 random0 parse0
                [Input "sockB" (Some demo_input); Interval; Interval]
                (demo_world running))) = Some r /\
    get "sockB" (players r) = Some p /\
    bounded p.
Proof.
  eexists. eexists.
  split; [reflexivity|]. split; [reflexivity|].
  eapply (fuel_and_speed_stay_bounded clock0 random0 parse0
            [Input "sockB" (Some demo_input); Interval; Interval]
            (demo_world running) (demo_world_bounded running)
            "ABC234" _ "sockB" _); reflexivity.
Defined.

(** C3 on the demo room: the host disconnects from the running room. *)
Lemma phase_never_returns_to_lobby_demo :
  exists r1,
    get "ABC234"
      (rooms (step clock0 random0 parse0 (Disconnect "sockA")
                (demo_world running))) = Some r1 /\
    phase r1 = running.
Proof.
  destruct (phase_never_returns_to_lobby clock0 random0 parse0
              (demo_world running) "ABC234" (demo_room running)
              eq_refl eq_refl) as [_ H].
  destruct (H "sockA") as (r1 & r2 & _ & _ & H2 & P2).
  exists r2. split; assumption.
Defined.

(** A readable message on the demo room: the throttle is out of range,
    the brake is missing and the steer is not a number. *)
Lemma readable_input_is_clamped_demo :
  exists p',
    throttle p' = Rmax 0 (Rmin 1 5) /\
    brake p' = Rmax 0 (Rmin 1 0) /\
    steer p' = Rmax (-1) (Rmin 1 0) /\
    refuel p' = true.
Proof.
  destruct (readable_input_is_clamped clock0 random0 parse0
              (demo_world running) "sockB" "ABC234" (demo_room running) bob
              demo_input (Fin 5) NaN NaN
              eq_refl eq_refl eq_refl eq_refl eq_refl eq_refl)
    as (r' & p' & _ & _ & _ & _ & _ & _ & _ & _ & Ht & Hb & Hs & Hr & _).
  exists p'. repeat split; try assumption.
  rewrite Hr. simpl. unfold Reqb. destruct (Req_dec_T 1 0); [lra | reflexivity].
Defined.

(** C8 on the demo room: one tick of the timer. *)
Lemma distance_never_decreases_demo :
  distance alice <= distance (tickPlayer 42 0 alice).
Proof.
  destruct (distance_never_decreases clock0 random0 parse0
              [Interval] (demo_world running) "ABC234" "sockA"
              demo_room_ticked (tickPlayer 42 0 alice)
              eq_refl eq_refl eq_refl)
    as [(r & p & Hr & Hp & Hd) _].
  injection Hr as <-. injection Hp as <-. exact Hd.
Defined.

(** * Further properties of the code *)

(** ** World generator *)

Lemma smoothstep_range (t : R) : 0 <= t < 1 -> 0 <= t * t * (3 - 2 * t) < 1.
Proof.
  intros [H0 H1]. split; [nra|].
  assert (0 < (1 - t) * (1 - t) * (1 + 2 * t)) by (repeat apply Rmult_lt_0_compat; lra).
  nra.
Qed.

(** X1. The noise is a value in [[0,1)] and the centre of the road stays
    within 25 metres of the axis, whatever the seed and the position. *)
Theorem roadCenterX_within_25 (sd yMeters : R) :
  0 <= noise1 sd yMeters < 1 /\ -25 <= roadCenterX sd yMeters < 25.
Proof.
  assert (Hn : forall v, 0 <= noise1 sd v < 1).
  { intros v. unfold noise1. cbv zeta.
    pose proof (Math_floor_bounds v) as Hf.
    pose proof (smoothstep_range (v - Math_floor v)) as Hs.
    pose proof (rnd_range sd (Math_floor v)) as Ha.
    pose proof (rnd_range sd (Math_floor v + 1)) as Hb.
    set (s := (v - Math_floor v) * (v - Math_floor v) * (3 - 2 * (v - Math_floor v))) in *.
    assert (0 <= s < 1) by (apply Hs; lra).
    generalize dependent (rnd sd (Math_floor v)).
    generalize dependent (rnd sd (Math_floor v + 1)).
    intros b Hb a Ha. nra. }
  split; [apply Hn|].
  unfold roadCenterX. cbv zeta.
  specialize (Hn (yMeters * 0.0025)). lra.
Qed.

Lemma Math_floor_unique (v : R) (k : Z) : IZR k <= v < IZR k + 1 -> Math_floor v = IZR k.
Proof.
  intros H. unfold Math_floor. f_equal. symmetry. apply Int_part_spec. lra.
Qed.

(** X2. The point of interest found for [y] sits in the middle of the
    800-metre window that holds [y], and every position of that window gets
    the same point. *)
Theorem poiForY_same_in_window (sd yMeters y' : R) :
  poi_y (poiForY sd yMeters) - 400 <= y' < poi_y (poiForY sd yMeters) + 400 ->
  poiForY sd y' = poiForY sd yMeters /\
  poi_y (poiForY sd yMeters) - 400 <= yMeters < poi_y (poiForY sd yMeters) + 400.
Proof.
  intros Hw.
  assert (Hy : poi_y (poiForY sd yMeters) = Math_floor (yMeters / SEG) * 800 + 400).
  { unfold poiForY; cbv zeta; cbn [poi_y]. unfold SEG. lra. }
  rewrite Hy in *.
  pose proof (Math_floor_bounds (yMeters / SEG)) as Hb.
  assert (Hk : Math_floor (y' / SEG) = Math_floor (yMeters / SEG)).
  { unfold Math_floor at 2. apply Math_floor_unique.
    fold (Math_floor (yMeters / SEG)). unfold SEG in *. lra. }
  split.
  - unfold poiForY; cbv zeta. rewrite Hk. reflexivity.
  - unfold SEG in *. lra.
Qed.

(** X2 at seed 42: positions 0 and 100 are in the window around 400. *)
Lemma poiForY_same_in_window_demo : poiForY 42 100 = poiForY 42 0.
Proof.
  assert (H0 : Math_floor (0 / SEG) = 0).
  { replace (0 / SEG) with (IZR 0) by (unfold SEG; lra). apply Math_floor_IZR. }
  refine (proj1 (poiForY_same_in_window 42 0 100 _)).
  unfold poiForY; cbv zeta; cbn [poi_y]. rewrite H0. unfold SEG. lra.
Defined.

(** ** The physics step *)

Lemma friction_factor (b : R) : 0 < b < 1 -> 0 < Rpower b DT < 1.
Proof.
  intros Hb. unfold Rpower. split; [apply exp_pos|].
  rewrite <- exp_0. apply exp_increasing.
  assert (ln b < 0).
  { rewrite <- ln_1. apply ln_increasing; lra. }
  unfold DT, TICK_HZ. nra.
Qed.

Lemma friction_of_tick (onRoad : bool) :
  0 < Rpower (if onRoad then phys.baseFriction else phys.offroadFriction) DT < 1.
Proof.
  apply friction_factor.
  destruct onRoad; unfold phys.baseFriction, phys.offroadFriction; lra.
Qed.

(** X3. A player that has not been heard of for more than ten seconds is
    driven with neutral controls: the tick stores zero throttle, brake and
    steer and no refuel, keeps heading and fuel as they are, and does not
    let the speed grow in magnitude.  The time of the last message is
    kept, so this goes on until an input arrives. *)
Theorem idle_player_coasts (sd : R) (now : Z) (p : Player) :
  (now - lastHeard p > 10000)%Z ->
  let p' := tickPlayer sd now p in
  throttle p' = 0 /\ brake p' = 0 /\ steer p' = 0 /\ refuel p' = false /\
  angle p' = angle p /\ fuel p' = fuel p /\
  Rabs (speed p') <= Rabs (speed p) /\
  lastHeard p' = lastHeard p.
Proof.
  intros Hidle p'. subst p'.
  assert (E : (now - lastHeard p >? 10000)%Z = true) by (apply Z.gtb_lt; lia).
  unfold tickPlayer; cbv zeta. rewrite E.
  cbn [throttle brake steer refuel angle fuel speed lastHeard].
  repeat split.
  - ring.
  - replace (Rltb 0 0) with false; [reflexivity|].
    symmetry. apply Rltb_false. lra.
  - match goal with
    | |- context [Rpower (if ?b then _ else _) DT] =>
        pose proof (friction_of_tick b) as Hf;
        generalize dependent (Rpower (if b then phys.baseFriction
                                     else phys.offroadFriction) DT)
    end.
    intros f Hf.
    pose proof half_life_factor as Hh.
    unfold phys.maxSpeed, phys.accel, phys.brake.
    replace (speed p + (0 * 8.0 - 0 * 10.0) * DT) with (speed p) by ring.
    generalize (speed p). intros s.
    assert (Hclamp : forall v,
               Rabs (if Rltb (if Rltb 45 v then 45 else v) (-10) then -10
                     else if Rltb 45 v then 45 else v) <= Rabs v).
    { intros v. cmp 45 v; cmp_all; unfold Rabs; repeat destruct Rcase_abs; lra. }
    assert (Hsf : Rabs (s * f) <= Rabs s).
    { rewrite Rabs_mult. rewrite (Rabs_pos_eq f) by lra.
      pose proof (Rabs_pos s). nra. }
    specialize (Hclamp (s * f)).
    set (s4 := if Rltb (if Rltb 45 (s * f) then 45 else s * f) (-10) then -10
               else if Rltb 45 (s * f) then 45 else s * f) in *.
    match goal with
    | |- context [if ?c then _ * Rpower 0.5 DT else _] => destruct c
    end; [|lra].
    rewrite Rabs_mult. rewrite (Rabs_pos_eq (Rpower 0.5 DT)) by lra.
    pose proof (Rabs_pos s4). nra.
Qed.

(** X3 for Alice, silent since time 0, at time 10001. *)
Lemma idle_player_coasts_demo :
  throttle (tickPlayer 42 10001 alice) = 0 /\
  fuel (tickPlayer 42 10001 alice) = fuel alice.
Proof.
  pose proof (idle_player_coasts 42 10001 alice) as H.
  cbv zeta in H.
  destruct H as (Ht & _ & _ & _ & _ & Hf & _); [simpl; lia|].
  split; assumption.
Defined.

Lemma clamped_speed_range (v : R) :
  -10 <= (if Rltb (if Rltb 45 v then 45 else v) (-10) then -10
          else if Rltb 45 v then 45 else v) <= 45.
Proof. cmp 45 v; cmp_all; lra. Qed.

Lemma scaled_by_unit (u s : R) : -1 <= u <= 1 -> -10 <= s <= 45 ->
  Rabs (u * s * DT) <= 45 * DT.
Proof.
  intros Hu Hs. unfold DT, TICK_HZ.
  unfold Rabs. destruct Rcase_abs; nra.
Qed.

(** X4. In one tick a car moves at most [45 * DT] = 2.25 metres along
    each axis, and its recorded distance grows by at most as much,
    whatever its state and controls were. *)
Theorem tick_moves_at_most_one_step (sd : R) (now : Z) (p : Player) :
  let p' := tickPlayer sd now p in
  Rabs (x p' - x p) <= 45 * DT /\
  Rabs (y p' - y p) <= 45 * DT /\
  distance p <= distance p' <= distance p + 45 * DT.
Proof.
  intros p'.
  assert (Hy : Rabs (y p' - y p) <= 45 * DT).
  { subst p'. unfold tickPlayer; cbv zeta; cbn [y]. unfold phys.maxSpeed.
    match goal with
    | |- Rabs (y p + ?u * ?s * DT - y p) <= _ =>
        replace (y p + u * s * DT - y p) with (u * s * DT) by ring;
        apply scaled_by_unit;
        [apply COS_bound | apply clamped_speed_range]
    end. }
  split; [|split; [exact Hy|]].
  - subst p'. unfold tickPlayer; cbv zeta; cbn [x]. unfold phys.maxSpeed.
    match goal with
    | |- Rabs (x p + ?u * ?s * DT - x p) <= _ =>
        replace (x p + u * s * DT - x p) with (u * s * DT) by ring;
        apply scaled_by_unit;
        [apply SIN_bound | apply clamped_speed_range]
    end.
  - subst p'. rewrite tickPlayer_distance.
    revert Hy. generalize (y (tickPlayer sd now p) - y p). intros dy Hy.
    assert (dy <= 45 * DT) by (revert Hy; unfold Rabs; destruct Rcase_abs; lra).
    cmp_all; unfold DT, TICK_HZ in *; lra.
Qed.

(** X5. With a throttle in [[0,1]] and fuel not below zero, one tick takes at most 0.027 units of
    fuel (the off-road burn at full throttle) and adds at most 1.5 (the
    refuel rate); the fuel never goes up without the refuel control and
    never goes down at zero throttle. *)
Theorem tick_changes_fuel_little (sd : R) (now : Z) (p : Player) :
  0 <= throttle p <= 1 ->
  0 <= fuel p ->
  let p' := tickPlayer sd now p in
  fuel p - 0.027 <= fuel p' <= fuel p + 1.5 /\
  (refuel p = false -> fuel p' <= fuel p) /\
  (throttle p = 0 -> fuel p <= fuel p').
Proof.
  intros Hth Hfuel p'. subst p'.
  unfold tickPlayer; cbv zeta; cbn [fuel].
  unfold DT, TICK_HZ, phys.fuelBurn.
  set (th := if (now - lastHeard p >? 10000)%Z then 0 else throttle p).
  set (rf := if (now - lastHeard p >? 10000)%Z then false else refuel p).
  assert (Hth' : 0 <= th <= 1) by (subst th; destruct (_ >? _)%Z; lra).
  match goal with
  | |- context [if Rltb 0 th && ?c then ?a else ?b] =>
      set (f1 := if Rltb 0 th && c then a else b)
  end.
  assert (H1 : fuel p - 0.027 <= f1 <= fuel p /\ (th = 0 -> f1 = fuel p)).
  { subst f1.
    destruct (Rltb 0 th) eqn:Eth; simpl;
      [apply Rltb_true in Eth | split; [lra | reflexivity]].
    split; [|intros; lra].
    match goal with |- context [if ?c then _ else _] => destruct c end; [|lra].
    match goal with
    | |- context [_ * th * ?k] =>
        assert (1 <= k <= 1.8) by (destruct (Rleb _ _); lra);
        generalize dependent k
    end.
    intros k Hk.
    match goal with |- context [Rltb ?a 0] => cmp a 0 end; nra. }
  clearbody f1. destruct H1 as [H1 H1'].
  match goal with
  | |- context [if rf && Rltb f1 (maxFuel p) then ?a else f1] =>
      set (f2 := if rf && Rltb f1 (maxFuel p) then a else f1)
  end.
  assert (H2 : f1 <= f2 <= f1 + 1.5 /\ (rf = false -> f2 = f1)).
  { subst f2. destruct rf; simpl; [|split; [lra | reflexivity]].
    split; [|discriminate].
    cmp f1 (maxFuel p); [|lra].
    match goal with |- context [if ?c then _ else f1] => destruct c end;
      [|lra].
    cmp_all; lra. }
  clearbody f2. destruct H2 as [H2 H2'].
  repeat split.
  - lra.
  - lra.
  - intros Hrf. rewrite H2'; [lra|].
    subst rf. rewrite Hrf. destruct (_ >? _)%Z; reflexivity.
  - intros H0. assert (th = 0) by (subst th; destruct (_ >? _)%Z; lra).
    rewrite <- (H1' H). lra.
Qed.

(** X5 for Alice at rest: throttle 0. *)
Lemma tick_changes_fuel_little_demo :
  fuel alice - 0.027 <= fuel (tickPlayer 42 0 alice) <= fuel alice + 1.5.
Proof.
  pose proof (tick_changes_fuel_little 42 0 alice) as H. cbv zeta in H.
  destruct H as [H _]; [simpl; lra | simpl; lra | exact H].
Defined.

(** ** Every event as a sequence of room changes *)

Lemma room_steps_trans a b c : room_steps a b -> room_steps b c -> room_steps a c.
Proof.
  intros Hab Hbc. induction Hbc as [|r1 r2 r3 H12 IH H23]; [exact Hab|].
  eapply steps_more; [apply IH; exact Hab | exact H23].
Qed.

Lemma room_steps_one a b : room_step a b -> room_steps a b.
Proof. intros H. eapply steps_more; [apply steps_none | exact H]. Qed.

Lemma no_keys_no_players (ps : obj Player) :
  (List.length (keys ps) =? 0)%nat = true -> ps = [].
Proof. destruct ps; [reflexivity | discriminate]. Qed.

Lemma traced_set (rs : obj Room) (c : string) (r r' : Room) :
  get c rs = Some r -> room_steps r r' -> evolves room_steps rs (set c r' rs).
Proof.
  intros Hc Hs. eapply evolves_set; eauto using steps_none.
Qed.

Lemma traced_set_twice (rs : obj Room) (c : string) (r r1 r2 : Room) :
  get c rs = Some r -> room_steps r r1 -> room_steps r1 r2 ->
  evolves room_steps rs (set c r2 (set c r1 rs)).
Proof.
  intros Hc H1 H2.
  eapply evolves_trans; [apply room_steps_trans| |].
  - eapply traced_set; eauto.
  - eapply traced_set; eauto. apply get_set_eq.
Qed.

(** Unfolds an event down to its handler. *)
Ltac open_handler := unfold step, exec, handle.

Section TraceFacts.

Variable Date_now : nat -> Z.
Variable Math_random : nat -> R.
Variable StringToNumber : string -> jsnum.

Local Abbreviation tickPlayers := (tickPlayers Date_now).
Local Abbreviation tickRoom := (tickRoom Date_now).
Local Abbreviation tickRooms := (tickRooms Date_now).
Local Abbreviation freshCode := (freshCode Math_random).
Local Abbreviation step := (step Date_now Math_random StringToNumber).
Local Abbreviation run := (run Date_now Math_random StringToNumber).

Lemma tickPlayers_ticked (sd : R) (ps : obj Player) (w : World) :
  ticked sd ps (fst (tickPlayers sd ps w)).
Proof.
  revert w. induction ps as [|[k p] rest IH]; intros w; [constructor|].
  simpl. unfold bind, nowMs, ret.
  match goal with
  | |- context [tickPlayers sd rest ?w1] =>
      pose proof (IH w1) as Hf; destruct (tickPlayers sd rest w1) as [rest' w2]
  end.
  cbn [fst] in *. constructor; [|exact Hf].
  split; [reflexivity | eexists; reflexivity].
Qed.

Lemma tickRoom_traced (r : Room) (w : World) :
  phase r = running -> room_step r (fst (tickRoom r w)).
Proof.
  intros Hrun. unfold tickRoom, bind, ret, nowMs, send.
  pose proof (tickPlayers_ticked (seed r) (players r) w) as Hf.
  destruct (tickPlayers (seed r) (players r) w) as [ps w1].
  cbn [fst] in *. now apply step_tick.
Qed.

Lemma tickRooms_traced (codes : list string) (w : World) :
  evolves room_steps (rooms w) (rooms (snd (tickRooms codes w))).
Proof.
  revert w. induction codes as [|c rest IH]; intros w.
  - apply evolves_refl, steps_none.
  - simpl. unfold bind, getRoom, ret, setRoom.
    destruct (get c (rooms w)) as [r|] eqn:Hc; [|apply IH].
    destruct (Phase_eqb (phase r) running) eqn:Hph; [|apply IH].
    assert (Hrun : phase r = running) by (destruct (phase r); [discriminate|reflexivity]).
    destruct (tickRoom_spec Date_now r w) as [Hr _].
    pose proof (tickRoom_traced r w Hrun) as Ht.
    destruct (tickRoom r w) as [r' w1]. cbn [fst snd] in *.
    eapply evolves_trans; [apply room_steps_trans| |apply IH].
    unfold with_rooms; cbn [rooms]. rewrite Hr.
    eapply traced_set; eauto using room_steps_one.
Qed.

Lemma destroyEmptyStaleRooms_from_traced (t : Z) (codes : list string)
    (w : World) :
  evolves room_steps (rooms w)
          (rooms (snd (destroyEmptyStaleRooms_from t codes w))).
Proof.
  revert w. induction codes as [|c rest IH]; intros w.
  - apply evolves_refl, steps_none.
  - simpl. unfold bind, getRoom, ret, deleteRoom.
    destruct (get c (rooms w)) as [r|] eqn:Hc; [|apply IH].
    match goal with |- context [if ?b then _ else _] => destruct b end.
    + eapply evolves_trans; [apply room_steps_trans| |apply IH].
      unfold with_rooms; cbn [rooms].
      apply evolves_del, steps_none.
    + apply IH.
Qed.

(** Whatever an event other than [createRoom] leaves in the registry was
    there before, and got to its present state by room changes. *)
Lemma step_traced_old (e : Event) (w : World) :
  (forall sid nm col n, e <> CreateRoom sid nm col n) ->
  evolves room_steps (rooms w) (rooms (step e w)).
Proof.
  intros Hne.
  assert (Hsame : evolves room_steps (rooms w) (rooms w))
    by apply evolves_refl, steps_none.
  destruct e as [| sid nm col n | sid code0 nm col | sid rdy | sid
                 | sid data | sid | sid |].
  - exact Hsame.
  - exfalso. eapply Hne. reflexivity.
  - (* joinRoom *)
    run_js. unfold on_joinRoom, makePlayer. run_js.
    set (c0 := normalizeCode code0).
    destruct (get c0 (rooms w)) as [room|] eqn:Hroom; [|exact Hsame].
    destruct (phase room) eqn:Hph; cbn [Phase_eqb negb]; [|exact Hsame].
    destruct (12 <=? List.length (keys (players room)))%nat eqn:Hn;
      [exact Hsame|].
    cbn [snd rooms]. apply Nat.leb_gt in Hn.
    unfold keys in Hn. rewrite length_map in Hn.
    eapply traced_set; eauto.
    apply room_steps_one.
    apply (step_join room sid (playerName nm) (playerColor col "#f6a93b")
             (Date_now (clockReads w)) Hph Hn).
  - (* setReady *)
    run_js. unfold on_setReady. run_js.
    destruct (get sid (joinedCode w)) as [jc|]; [|exact Hsame].
    destruct (get jc (rooms w)) as [r|] eqn:Hr; [|exact Hsame].
    destruct (get sid (players r)) as [p|] eqn:Hp; [|exact Hsame].
    cbn [snd rooms].
    eapply traced_set; eauto using room_steps_one, step_ready.
  - (* startGame *)
    run_js. unfold on_startGame. run_js.
    destruct (get sid (joinedCode w)) as [jc|]; [|exact Hsame].
    destruct (get jc (rooms w)) as [r|] eqn:Hr; [|exact Hsame].
    destruct (get sid (players r)) as [p|] eqn:Hp; [|exact Hsame].
    destruct (isHost p) eqn:Hh; cbn [negb snd rooms]; [|exact Hsame].
    eapply traced_set; eauto using room_steps_one, step_start.
  - (* input *)
    run_js. unfold on_input, throw. run_js.
    destruct (get sid (joinedCode w)) as [jc|]; [|exact Hsame].
    destruct (get jc (rooms w)) as [r|] eqn:Hr; [|exact Hsame].
    destruct (get sid (players r)) as [p|] eqn:Hp; [|exact Hsame].
    destruct data as [data|]; [|exact Hsame].
    destruct (clampField StringToNumber 0 1 (d_throttle data)) as [th|] eqn:Eth;
      [|exact Hsame].
    apply clampField_Some in Eth; [|lra].
    destruct (clampField StringToNumber 0 1 (d_brake data)) as [br|] eqn:Ebr.
    + apply clampField_Some in Ebr; [|lra].
      destruct (clampField StringToNumber (-1) 1 (d_steer data)) as [st|] eqn:Est.
      * apply clampField_Some in Est; [|lra].
        cbn [snd rooms].
        eapply traced_set; eauto using room_steps_one, step_input.
      * cbn [snd rooms].
        eapply traced_set; eauto.
        apply room_steps_one, step_input_part; auto.
    + cbn [snd rooms].
      eapply traced_set; eauto.
      apply room_steps_one, step_input_part; auto.
  - (* leaveRoom *)
    run_js. unfold on_leaveRoom. run_js.
    destruct (get sid (joinedCode w)) as [jc|]; [|exact Hsame].
    destruct (get jc (rooms w)) as [r|] eqn:Hr; [|exact Hsame].
    cbn [players with_players].
    destruct (List.length (keys (del sid (players r))) =? 0)%nat eqn:Hn;
      cbn [snd rooms].
    + apply no_keys_no_players in Hn.
      eapply traced_set_twice; eauto using room_steps_one, step_leave.
      apply room_steps_one, step_backdate. exact Hn.
    + eapply traced_set; eauto using room_steps_one, step_leave.
  - (* disconnect *)
    run_js. unfold on_disconnect. run_js.
    destruct (get sid (joinedCode w)) as [jc|]; [|exact Hsame].
    destruct (get jc (rooms w)) as [r|] eqn:Hr; [|exact Hsame].
    fold (wasHost sid (players r)).
    cbn [players with_players].
    match goal with
    | |- context [(List.length (keys ?ps) =? 0)%nat] =>
        destruct (List.length (keys ps) =? 0)%nat eqn:Hn
    end; cbn [snd rooms].
    + apply no_keys_no_players in Hn.
      eapply traced_set_twice; eauto using room_steps_one, step_disconnect.
      apply room_steps_one, step_backdate. exact Hn.
    + eapply traced_set; eauto using room_steps_one, step_disconnect.
  - (* the timer *)
    run_js. unfold interval, destroyEmptyStaleRooms, roomKeys. run_js.
    pose proof (tickRooms_traced (keys (rooms w)) w) as H1.
    destruct (tickRooms (keys (rooms w)) w) as [[] w1]. cbn [snd] in *.
    eapply evolves_trans; [apply room_steps_trans|exact H1|].
    match goal with
    | |- context [destroyEmptyStaleRooms_from ?t ?cs ?w2] =>
        exact (destroyEmptyStaleRooms_from_traced t cs w2)
    end.
Qed.

(** The state after the [createRoom] handler, from the state [w1] in which
    the search for a code ended. *)
Lemma createRoom_handler_world (sid : string) (nm col : option string)
    (n : nat) (w : World) :
  step (CreateRoom sid nm col n) w
  = match freshCode n w with
    | (None, w1) => w1
    | (Some c, w1) =>
        let p := with_isHost
                   (freshPlayer sid (playerName nm) (playerColor col "#5ec8f8")
                      (Date_now (S (S (clockReads w1))))) true in
        let room0 := {| code := c; createdAt := Date_now (clockReads w1);
                        seed := Math_floor (Math_random (randomReads w1) * 1e9);
                        phase := lobby; players := [];
                        lastTick := Date_now (S (clockReads w1)) |} in
        let room := with_players room0 [(sid, p)] in
        {| rooms := set c room (set c room0 (rooms w1));
           joinedCode := set sid c (joinedCode w1);
           clockReads := S (S (S (clockReads w1)));
           randomReads := S (randomReads w1);
           sent := (((sent w1 ++ [SocketJoin sid c]) ++
                     [SocketEmit sid "joined" (PJoined (snapshotRoom room) sid)]) ++
                    [RoomEmit c "lobby" (PSnapshot (snapshotRoom room))])%list |}
    end.
Proof.
  open_handler. unfold on_createRoom, createRoom, bind.
  destruct (freshCode n w) as [[c|] w1]; reflexivity.
Qed.

(** [createRoom] leaves every room that was there as it is and, when it
    finds a code, opens a new room under a code that was free. *)
Lemma createRoom_traced (sid : string) (nm col : option string) (n : nat)
    (w : World) (c : string) (r' : Room) :
  get c (rooms (step (CreateRoom sid nm col n) w)) = Some r' ->
  get c (rooms w) = Some r' \/ (get c (rooms w) = None /\ opened c r').
Proof.
  rewrite createRoom_handler_world.
  destruct (freshCode_spec Math_random n w) as [Hr Hf].
  destruct (freshCode n w) as [[c0|] w1]; cbn [fst snd] in *;
    [|rewrite Hr; auto].
  cbv zeta. cbn [rooms]. rewrite Hr, !get_set.
  destruct (String.eqb c0 c) eqn:E; [|auto].
  apply String.eqb_eq in E; subst c0.
  intros [= <-]. right. split; [assumption|].
  unfold opened. do 7 eexists. reflexivity.
Qed.

(** Seen from a room: any event either took it from a room that was there
    by room changes, or opened it under a code that was free. *)
Lemma step_traced (e : Event) (w : World) (c : string) (r' : Room) :
  get c (rooms (step e w)) = Some r' ->
  (exists r, get c (rooms w) = Some r /\ room_steps r r') \/
  (get c (rooms w) = None /\ opened c r').
Proof.
  intros H.
  destruct e as [| sid nm col n | | | | | | |];
    try (left; eapply step_traced_old; [|exact H]; intros; discriminate).
  destruct (createRoom_traced sid nm col n w c r' H) as [H0 | H0]; [|auto].
  left. exists r'. split; [assumption | apply steps_none].
Qed.

(** A property of rooms that every room change keeps and every opened
    room has is kept by every run of the server. *)
Lemma every_room_run (P : Room -> Prop) :
  (forall r r', room_step r r' -> P r -> P r') ->
  (forall c r, opened c r -> P r) ->
  forall es w, every_room P w -> every_room P (run es w).
Proof.
  intros Hstep Hopen es.
  induction es as [|e es IH]; intros w Hw; [exact Hw|].
  apply IH. intros c r' Hc.
  destruct (step_traced e w c r' Hc) as [(r & Hr & Hs) | (_ & Ho)];
    [|eauto].
  specialize (Hw c r Hr). clear Hr Hc.
  induction Hs; eauto.
Qed.

End TraceFacts.

(** ** Counting players and hosts *)

Lemma length_set_le {V : Type} (k : string) (v : V) (o : obj V) :
  (List.length (set k v o) <= S (List.length o))%nat.
Proof.
  induction o as [|[k0 v0] rest IH]; simpl; [lia|].
  destruct (String.eqb k k0); simpl; lia.
Qed.

Lemma length_set_existing {V : Type} (k : string) (v v' : V) (o : obj V) :
  get k o = Some v -> List.length (set k v' o) = List.length o.
Proof.
  induction o as [|[k0 v0] rest IH]; simpl; [discriminate|].
  destruct (String.eqb k k0); simpl; [reflexivity|].
  intros H. now rewrite IH.
Qed.

Lemma keys_set_existing {V : Type} (k : string) (v v' : V) (o : obj V) :
  get k o = Some v -> keys (set k v' o) = keys o.
Proof.
  induction o as [|[k0 v0] rest IH]; simpl; [discriminate|].
  destruct (String.eqb k k0); simpl; [reflexivity|].
  intros H. now rewrite IH.
Qed.

Lemma length_del_le {V : Type} (k : string) (o : obj V) :
  (List.length (del k o) <= List.length o)%nat.
Proof. unfold del. apply filter_length_le. Qed.

Lemma keys_del_incl {V : Type} (k : string) (o : obj V) :
  incl (keys (del k o)) (keys o).
Proof.
  unfold keys, del. intros c Hc.
  apply in_map_iff in Hc. destruct Hc as (kv & <- & Hin).
  apply filter_In in Hin. apply in_map. tauto.
Qed.

Lemma length_promoteFirst (ps : obj Player) :
  List.length (promoteFirst ps) = List.length ps.
Proof. destruct ps as [|[k p] rest]; reflexivity. Qed.

Lemma keys_promoteFirst (ps : obj Player) : keys (promoteFirst ps) = keys ps.
Proof. destruct ps as [|[k p] rest]; reflexivity. Qed.

Lemma ticked_keys (sd : R) (ps ps' : obj Player) :
  ticked sd ps ps' -> keys ps' = keys ps.
Proof.
  induction 1 as [|kp kp' ps ps' [Hk _] _ IH]; simpl; [reflexivity|].
  now rewrite Hk, IH.
Qed.

Lemma ticked_length (sd : R) (ps ps' : obj Player) :
  ticked sd ps ps' -> List.length ps' = List.length ps.
Proof. intros H. symmetry. eapply Forall2_length; eauto. Qed.

Lemma ticked_get (sd : R) (ps ps' : obj Player) (k : string) (p' : Player) :
  ticked sd ps ps' -> get k ps' = Some p' ->
  exists p now, get k ps = Some p /\ p' = tickPlayer sd now p.
Proof.
  induction 1 as [|[k0 p0] [k1 p1] ps ps' [Hk [now Hp]] _ IH]; simpl;
    [discriminate|].
  simpl in Hk, Hp. subst k1.
  destruct (String.eqb k k0); [|exact IH].
  intros [= <-]. eauto.
Qed.

Lemma ticked_hosts (sd : R) (ps ps' : obj Player) :
  ticked sd ps ps' -> hosts ps' = hosts ps.
Proof.
  unfold hosts.
  induction 1 as [|[k0 p0] [k1 p1] ps ps' [_ [now Hp]] _ IH]; simpl;
    [reflexivity|].
  simpl in Hp. subst p1. cbn [isHost tickPlayer].
  change (isHost (tickPlayer sd now p0)) with (isHost p0).
  destruct (isHost p0); simpl; now rewrite IH.
Qed.

Lemma hosts_set_same (k : string) (p p' : Player) (ps : obj Player) :
  get k ps = Some p -> isHost p' = isHost p -> hosts (set k p' ps) = hosts ps.
Proof.
  unfold hosts. intros Hg Hh.
  induction ps as [|[k0 p0] rest IH]; simpl in Hg |- *; [discriminate|].
  destruct (String.eqb k k0).
  - injection Hg as Hg. subst p0. simpl. rewrite Hh.
    destruct (isHost p); reflexivity.
  - simpl. destruct (isHost p0); simpl; rewrite (IH Hg); reflexivity.
Qed.

Lemma hosts_set_guest (k : string) (p' : Player) (ps : obj Player) :
  isHost p' = false -> (hosts (set k p' ps) <= hosts ps)%nat.
Proof.
  unfold hosts. intros Hh.
  induction ps as [|[k0 p0] rest IH]; simpl; [now rewrite Hh|].
  destruct (String.eqb k k0); simpl.
  - rewrite Hh. destruct (isHost p0); simpl; lia.
  - destruct (isHost p0); simpl; lia.
Qed.

Lemma hosts_del_le (k : string) (ps : obj Player) :
  (hosts (del k ps) <= hosts ps)%nat.
Proof.
  unfold hosts, del.
  induction ps as [|[k0 p0] rest IH]; simpl; [lia|].
  destruct (String.eqb k k0); simpl; destruct (isHost p0); simpl; lia.
Qed.

(** Deleting the record of a host takes a host flag away. *)
Lemma hosts_del_host (k : string) (ps : obj Player) :
  wasHost k ps = true -> (S (hosts (del k ps)) <= hosts ps)%nat.
Proof.
  unfold wasHost, hosts, del.
  induction ps as [|[k0 p0] rest IH]; simpl; [discriminate|].
  destruct (String.eqb k k0) eqn:E; simpl.
  - intros ->. simpl.
    pose proof (hosts_del_le k rest) as H. unfold hosts, del in H. lia.
  - intros H. specialize (IH H). destruct (isHost p0); simpl; lia.
Qed.

Lemma hosts_promoteFirst (ps : obj Player) :
  (hosts (promoteFirst ps) <= S (hosts ps))%nat /\
  (ps <> [] -> 1 <= hosts (promoteFirst ps))%nat.
Proof.
  unfold hosts. destruct ps as [|[k p] rest]; simpl.
  - split; [lia | congruence].
  - destruct (isHost p); simpl; split; intros; lia.
Qed.

Section InvariantFacts.

Variable Date_now : nat -> Z.
Variable Math_random : nat -> R.
Variable StringToNumber : string -> jsnum.

Local Abbreviation step := (step Date_now Math_random StringToNumber).
Local Abbreviation run := (run Date_now Math_random StringToNumber).

(** X6. No room ever holds more than 12 players: if that is so in every
    room, it is so after any sequence of events. *)
Theorem rooms_never_exceed_capacity (es : list Event) (w : World) :
  every_room (fun r => (List.length (players r) <= 12)%nat) w ->
  every_room (fun r => (List.length (players r) <= 12)%nat) (run es w).
Proof.
  apply every_room_run.
  - intros r r' Hs Hr.
    destruct Hs; cbn [players with_players with_phase with_createdAt];
      try assumption.
    + erewrite length_set_existing; eauto.
    + erewrite length_set_existing; eauto.
    + erewrite length_set_existing; eauto.
    + pose proof (length_set_le sid (freshPlayer sid nm col t) (players r)).
      lia.
    + pose proof (length_del_le sid (players r)). lia.
    + pose proof (length_del_le sid (players r)).
      destruct (wasHost sid (players r));
        rewrite ?length_promoteFirst; lia.
    + erewrite ticked_length; eauto.
  - intros c r (sid & nm & col & t0 & sd & t1 & t & ->). simpl. lia.
Qed.

(** X7. No room ever has two hosts: if every room has at most one host
    flag, it is so after any sequence of events. *)
Theorem rooms_never_have_two_hosts (es : list Event) (w : World) :
  every_room (fun r => (hosts (players r) <= 1)%nat) w ->
  every_room (fun r => (hosts (players r) <= 1)%nat) (run es w).
Proof.
  apply every_room_run.
  - intros r r' Hs Hr.
    destruct Hs; cbn [players with_players with_phase with_createdAt];
      try assumption.
    + erewrite hosts_set_same; eauto.
    + erewrite hosts_set_same; eauto.
    + erewrite hosts_set_same; eauto.
    + pose proof (hosts_set_guest sid (freshPlayer sid nm col t) (players r)
                    eq_refl). lia.
    + pose proof (hosts_del_le sid (players r)). lia.
    + destruct (wasHost sid (players r)) eqn:Hw.
      * pose proof (hosts_del_host sid (players r) Hw).
        pose proof (proj1 (hosts_promoteFirst (del sid (players r)))). lia.
      * pose proof (hosts_del_le sid (players r)). lia.
    + erewrite ticked_hosts; eauto.
  - intros c r (sid & nm & col & t0 & sd & t1 & t & ->).
    unfold hosts. simpl. lia.
Qed.

Lemma tickPlayer_controls sd now p :
  controls_in_range p -> controls_in_range (tickPlayer sd now p).
Proof.
  unfold controls_in_range, tickPlayer; cbv zeta; cbn [throttle brake steer].
  destruct (now - lastHeard p >? 10000)%Z; intros; lra.
Qed.

(** X8. The controls stored in a player record are always in range
    (throttle and brake in [[0,1]], steer in [[-1,1]]): the tick is only
    ever run on clamped controls. *)
Theorem controls_are_always_in_range (es : list Event) (w : World) :
  every_player controls_in_range w ->
  every_player controls_in_range (run es w).
Proof.
  intros Hw.
  assert (H : every_room (fun r => forall sid p,
                get sid (players r) = Some p -> controls_in_range p)
                (run es w)).
  { apply every_room_run.
    - intros r r' Hs Hr sid0 q.
      destruct Hs; cbn [players with_players with_phase with_createdAt];
        try apply Hr.
      + rewrite get_set. destruct (String.eqb sid sid0); [|apply Hr].
        intros [= <-]. apply (Hr sid p H).
      + rewrite get_set. destruct (String.eqb sid sid0); [|apply Hr].
        intros [= <-]. repeat split; simpl; lra.
      + rewrite get_set. destruct (String.eqb sid sid0); [|apply Hr].
        intros [= <-]. destruct (Hr sid p H) as (Ht & Hb & Hs).
        repeat split; cbn [with_controls throttle brake steer];
          try lra; destruct H1 as [-> | H1]; lra.
      + rewrite get_set. destruct (String.eqb sid sid0); [|apply Hr].
        intros [= <-]. repeat split; simpl; lra.
      + intros Hq. apply get_del_Some in Hq. eauto.
      + assert (Hd : forall s q0, get s (del sid (players r)) = Some q0 ->
                                  controls_in_range q0).
        { intros s q0 Hq. apply get_del_Some in Hq. eauto. }
        destruct (wasHost sid (players r)); [|apply Hd].
        destruct (del sid (players r)) as [|[k0 p0] rest]; simpl;
          [discriminate|].
        specialize (Hd k0 p0) as H0. simpl in H0.
        rewrite String.eqb_refl in H0. specialize (H0 eq_refl).
        destruct (String.eqb sid0 k0) eqn:E.
        * intros [= <-]. exact H0.
        * intros Hq. apply (Hd sid0 q). simpl. now rewrite E.
      + intros Hq.
        destruct (ticked_get _ _ _ _ _ H0 Hq) as (p0 & now & Hp0 & ->).
        apply tickPlayer_controls. eauto.
    - intros c r (sid & nm & col & t0 & sd & t1 & t & ->) sid0 q. simpl.
      destruct (String.eqb sid0 sid); [|discriminate].
      intros [= <-]. repeat split; simpl; lra.
    - intros c r Hc sid p Hp. eapply Hw; eauto. }
  intros c r sid p Hc Hp. eapply H; eauto.
Qed.

End InvariantFacts.

Lemma room_step_fixed (r r' : Room) :
  room_step r r' ->
  seed r' = seed r /\ code r' = code r /\ lastTick r' = lastTick r.
Proof. destruct 1; repeat split. Qed.

Lemma room_step_running (r r' : Room) :
  room_step r r' -> phase r = running ->
  phase r' = running /\ incl (keys (players r')) (keys (players r)).
Proof.
  destruct 1 as [r sid p b Hg | r sid p th br st rf t Hg Hth Hbr Hst
                | r sid p th br Hg Hth Hbr
                | r sid p Hg Hh | r sid nm col t Hl Hn | r sid | r sid
                | r t He | r ps Hp Ht];
    cbn [phase players with_players with_phase with_createdAt];
    intros Hrun; try congruence;
    (split; [first [assumption | reflexivity]|]);
    try apply incl_refl.
  - erewrite keys_set_existing; eauto. apply incl_refl.
  - erewrite keys_set_existing; eauto. apply incl_refl.
  - erewrite keys_set_existing; eauto. apply incl_refl.
  - apply keys_del_incl.
  - destruct (wasHost sid (players r)); rewrite ?keys_promoteFirst;
      apply keys_del_incl.
  - erewrite ticked_keys; eauto. apply incl_refl.
Qed.

Section RoomLifeFacts.

Variable Date_now : nat -> Z.
Variable Math_random : nat -> R.
Variable StringToNumber : string -> jsnum.

Local Abbreviation step := (step Date_now Math_random StringToNumber).
Local Abbreviation run := (run Date_now Math_random StringToNumber).

(** X9. No event changes the seed, the code or the [lastTick] stamp of a
    room that is in the registry before and after it. *)
Theorem seed_and_code_are_fixed
    (e : Event) (w : World) (c : string) (r r' : Room) :
  get c (rooms w) = Some r ->
  get c (rooms (step e w)) = Some r' ->
  seed r' = seed r /\ code r' = code r /\ lastTick r' = lastTick r.
Proof.
  intros Hr Hr'.
  destruct (step_traced Date_now Math_random StringToNumber e w c r' Hr')
    as [(r0 & Hr0 & Hs) | (Hnone & _)]; [|congruence].
  assert (r0 = r) by congruence. subst r0. clear Hr Hr' Hr0.
  induction Hs as [|r1 r2 r3 _ IH H23]; [auto|].
  destruct (room_step_fixed r2 r3 H23) as (H1 & H2 & H3).
  destruct IH as (I1 & I2 & I3). repeat split; congruence.
Qed.

(** X10. Nobody gets into a running room: after any event the players of
    a room that was running are among those it had, and the room is
    still running. *)
Theorem running_room_admits_nobody
    (e : Event) (w : World) (c : string) (r r' : Room) :
  get c (rooms w) = Some r ->
  phase r = running ->
  get c (rooms (step e w)) = Some r' ->
  incl (keys (players r')) (keys (players r)) /\
  (List.length (players r') <= List.length (players r))%nat.
Proof.
  intros Hr Hrun Hr'.
  destruct (step_traced Date_now Math_random StringToNumber e w c r' Hr')
    as [(r0 & Hr0 & Hs) | (Hnone & _)]; [|congruence].
  assert (r0 = r) by congruence. subst r0. clear Hr Hr' Hr0.
  assert (H : phase r' = running /\
              incl (keys (players r')) (keys (players r)) /\
              (List.length (players r') <= List.length (players r))%nat).
  { induction Hs as [|r1 r2 r3 _ IH H23]; [repeat split; auto using incl_refl|].
    destruct (IH Hrun) as (P2 & I2 & L2).
    destruct (room_step_running r2 r3 H23 P2) as (P3 & I3).
    split; [assumption|]. split; [eapply incl_tran; eauto|].
    assert ((List.length (players r3) <= List.length (players r2))%nat);
      [|lia].
    clear - H23 P2.
    destruct H23; cbn [players with_players with_phase with_createdAt];
      try lia.
    - erewrite length_set_existing; eauto.
    - erewrite length_set_existing; eauto.
    - erewrite length_set_existing; eauto.
    - congruence.
    - apply length_del_le.
    - destruct (wasHost sid (players r)); rewrite ?length_promoteFirst;
        apply length_del_le.
    - erewrite ticked_length; eauto. }
  tauto.
Qed.

(** X11. When the host disconnects from a room with a single host and
    somebody stays, the room is left with exactly one host, the first of
    the remaining players. *)
Theorem disconnect_leaves_one_host
    (w : World) (sid jc : string) (r : Room) :
  get sid (joinedCode w) = Some jc ->
  get jc (rooms w) = Some r ->
  wasHost sid (players r) = true ->
  (hosts (players r) <= 1)%nat ->
  del sid (players r) <> [] ->
  exists r' k p rest,
    get jc (rooms (step (Disconnect sid) w)) = Some r' /\
    players r' = (k, p) :: rest /\
    isHost p = true /\
    hosts (players r') = 1%nat.
Proof.
  intros Hj Hr Hw Hh Hne.
  destruct (disconnect_players Date_now Math_random StringToNumber
              w sid jc r Hj Hr) as (r' & Hg & Hps & _).
  fold (wasHost sid (players r)) in Hps. rewrite Hw in Hps.
  pose proof (hosts_del_host sid (players r) Hw) as Hd.
  destruct (del sid (players r)) as [|[k q] rest] eqn:E; [congruence|].
  exists r', k, (with_isHost q true), rest.
  repeat split; [assumption | rewrite Hps; reflexivity |].
  rewrite Hps.
  pose proof (hosts_promoteFirst ((k, q) :: rest)) as [H1 H2].
  assert (Hq : ((k, q) :: rest) <> []) by discriminate.
  specialize (H2 Hq). lia.
Qed.

(** X12. A request from a connection that is in no room of the registry
    (it never joined, it left, or its room was swept) is dropped: ready,
    start, input (with any payload or none), leave and disconnect leave
    the whole state as it is and send nothing. *)
Theorem requests_without_room_are_dropped
    (w : World) (sid : string) (v : jsval) (data : option InputData) :
  match get sid (joinedCode w) with
  | Some jc => get jc (rooms w)
  | None => None
  end = None ->
  step (SetReady sid v) w = w /\
  step (StartGame sid) w = w /\
  step (Input sid data) w = w /\
  step (LeaveRoom sid) w = w /\
  step (Disconnect sid) w = w.
Proof.
  intros H. run_js.
  unfold on_setReady, on_startGame, on_input, on_leaveRoom, on_disconnect.
  run_js.
  destruct (get sid (joinedCode w)) as [jc|]; [rewrite H|];
    repeat split; reflexivity.
Qed.

(** X13. A request to start the game from a player who is not the host,
    and a ready, start or input request (with any payload or none) from a
    connection that is not a player of its room, change nothing and send
    nothing. *)
Theorem requests_of_non_hosts_and_strangers_are_dropped
    (w : World) (sid jc : string) (r : Room) (v : jsval) (data : option InputData) :
  get sid (joinedCode w) = Some jc ->
  get jc (rooms w) = Some r ->
  wasHost sid (players r) = false ->
  step (StartGame sid) w = w /\
  (get sid (players r) = None ->
   step (SetReady sid v) w = w /\ step (Input sid data) w = w).
Proof.
  intros Hj Hr Hw. unfold wasHost in Hw. run_js.
  unfold on_setReady, on_startGame, on_input. run_js.
  rewrite Hj, Hr.
  destruct (get sid (players r)) as [p|].
  - rewrite Hw. split; [reflexivity | discriminate].
  - split; [reflexivity|]. intros _. split; reflexivity.
Qed.

End RoomLifeFacts.

(** ** Room codes and [createRoom] *)

Lemma string_app_assoc (a b c : string) : ((a ++ b) ++ c = a ++ (b ++ c))%string.
Proof. induction a as [|ch a IH]; simpl; [reflexivity | now rewrite IH]. Qed.

Lemma string_app_length (a b : string) :
  String.length (a ++ b) = (String.length a + String.length b)%nat.
Proof. induction a as [|ch a IH]; simpl; [reflexivity | now rewrite IH]. Qed.

Lemma string_get_in (s : string) (n : nat) :
  (n < String.length s)%nat ->
  exists ch, String.get n s = Some ch /\ In ch (list_ascii_of_string s).
Proof.
  revert n. induction s as [|c s IH]; intros n Hn; simpl in *; [lia|].
  destruct n as [|n].
  - exists c. auto.
  - destruct (IH n) as (ch & Hg & Hin); [lia|]. exists ch. auto.
Qed.

(** A reading of the generator in [[0,1)] picks a character of the
    alphabet. *)
Lemma charAt_CODE_CHARS (u : R) :
  0 <= u < 1 ->
  exists ch,
    charAt CODE_CHARS (Int_part (u * INR (String.length CODE_CHARS)))
    = String ch EmptyString /\
    In ch (list_ascii_of_string CODE_CHARS).
Proof.
  intros Hu.
  change (String.length CODE_CHARS) with 31%nat.
  replace (INR 31) with 31 by (simpl; lra).
  pose proof (base_Int_part (u * 31)) as [H1 H2].
  set (i := Int_part (u * 31)) in *.
  assert (Hi : (0 <= i < 31)%Z).
  { split.
    - apply le_IZR. assert (-1 < IZR i) by lra.
      apply lt_IZR in H. apply IZR_le. lia.
    - apply lt_IZR. lra. }
  unfold charAt.
  destruct (i <? 0)%Z eqn:E; [apply Z.ltb_lt in E; lia|].
  destruct (string_get_in CODE_CHARS (Z.to_nat i)) as (ch & Hg & Hin).
  { change (String.length CODE_CHARS) with 31%nat. lia. }
  rewrite Hg. eauto.
Qed.


Section CodeFacts.

Variable Date_now : nat -> Z.
Variable Math_random : nat -> R.
Variable StringToNumber : string -> jsnum.

Local Abbreviation makeCode_from := (makeCode_from Math_random).
Local Abbreviation makeCode := (makeCode Math_random).
Local Abbreviation freshCode := (freshCode Math_random).
Local Abbreviation step := (step Date_now Math_random StringToNumber).

Lemma makeCode_from_S (len : nat) (s : string) (w : World) :
  makeCode_from (S len) s w
  = makeCode_from len
      (s ++ charAt CODE_CHARS
              (Int_part (Math_random (randomReads w)
                         * INR (String.length CODE_CHARS))))
      {| rooms := rooms w; joinedCode := joinedCode w;
         clockReads := clockReads w; randomReads := S (randomReads w);
         sent := sent w |}.
Proof. reflexivity. Qed.

Lemma makeCode_from_spec (len : nat) (s : string) (w : World) :
  (forall n, 0 <= Math_random n < 1) ->
  exists t,
    fst (makeCode_from len s w) = (s ++ t)%string /\
    String.length t = len /\ code_like t /\
    same_but_random w (snd (makeCode_from len s w)) /\
    randomReads (snd (makeCode_from len s w)) = (randomReads w + len)%nat.
Proof.
  intros Hrand. revert s w.
  induction len as [|len IH]; intros s w.
  - exists EmptyString. simpl. repeat split; auto.
    + clear. induction s; simpl; congruence.
    + constructor.
  - rewrite makeCode_from_S.
    destruct (charAt_CODE_CHARS (Math_random (randomReads w)) (Hrand _))
      as (ch & Hc & Hin).
    rewrite Hc.
    match goal with
    | |- context [makeCode_from len ?s1 ?w1] =>
        destruct (IH s1 w1) as (t & Ht & Hl & Hcl & (F1 & F2 & F3 & F4) & Hr)
    end.
    exists (String ch t). cbn [rooms joinedCode clockReads sent randomReads] in *.
    rewrite Ht, Hr.
    split; [now rewrite string_app_assoc|].
    split; [simpl; now rewrite Hl|].
    split; [constructor; assumption|].
    split; [repeat split; assumption | lia].
Qed.

(** X14. With readings of the random generator in [[0,1)], [makeCode]
    returns six characters of the alphabet [CODE_CHARS] (no 0, O, 1, I or
    L), takes six readings and touches nothing else. *)
Theorem makeCode_gives_six_alphabet_characters (w : World) :
  (forall n, 0 <= Math_random n < 1) ->
  String.length (fst (makeCode w)) = 6%nat /\
  code_like (fst (makeCode w)) /\
  same_but_random w (snd (makeCode w)) /\
  randomReads (snd (makeCode w)) = (randomReads w + 6)%nat.
Proof.
  intros Hrand.
  destruct (makeCode_from_spec 6 "" w Hrand) as (t & Ht & Hl & Hc & Hf & Hr).
  unfold makeCode. rewrite Ht. simpl.
  repeat split; try apply Hf; assumption.
Qed.







End CodeFacts.

(** ** The sweep of empty rooms *)

Lemma get_in_keys {V : Type} (k : string) (v : V) (o : obj V) :
  get k o = Some v -> existsb (String.eqb k) (keys o) = true.
Proof.
  induction o as [|[k0 v0] rest IH]; simpl; [discriminate|].
  destruct (String.eqb k k0); simpl; auto.
Qed.

(** What the loop of [destroyEmptyStaleRooms] leaves under a code. *)
Lemma destroyEmptyStaleRooms_from_get (t : Z) (codes : list string)
    (w : World) (c : string) :
  get c (rooms (snd (destroyEmptyStaleRooms_from t codes w)))
  = match get c (rooms w) with
    | Some r => if existsb (String.eqb c) codes && stale t r
                then None else Some r
    | None => None
    end.
Proof.
  revert w. induction codes as [|c0 rest IH]; intros w.
  - simpl. destruct (get c (rooms w)); reflexivity.
  - simpl. unfold bind, getRoom, ret, deleteRoom.
    destruct (get c0 (rooms w)) as [r0|] eqn:Hc0.
    + fold (stale t r0).
      destruct (stale t r0) eqn:Hs; rewrite IH;
        unfold with_rooms; cbn [rooms snd].
      * rewrite get_del.
        destruct (String.eqb c0 c) eqn:E.
        -- apply String.eqb_eq in E. subst c0. rewrite Hc0.
           rewrite String.eqb_refl. simpl. now rewrite Hs.
        -- rewrite String.eqb_sym, E. reflexivity.
      * destruct (String.eqb c c0) eqn:E; [|reflexivity].
        apply String.eqb_eq in E. subst c0. rewrite Hc0. simpl.
        rewrite Hs. now rewrite andb_false_r.
    + rewrite IH. cbn [snd].
      destruct (String.eqb c c0) eqn:E; [|reflexivity].
      apply String.eqb_eq in E. subst c0. now rewrite Hc0.
Qed.

Section SweepFacts.

Variable Date_now : nat -> Z.
Variable Math_random : nat -> R.
Variable StringToNumber : string -> jsnum.

Local Abbreviation tickPlayers := (tickPlayers Date_now).
Local Abbreviation tickRoom := (tickRoom Date_now).
Local Abbreviation tickRooms := (tickRooms Date_now).
Local Abbreviation step := (step Date_now Math_random StringToNumber).

Lemma tickPlayers_clock (sd : R) (ps : obj Player) (w : World) :
  (clockReads w <= clockReads (snd (tickPlayers sd ps w)))%nat.
Proof.
  revert w. induction ps as [|[k p] rest IH]; intros w; simpl; [lia|].
  unfold bind, nowMs, ret.
  match goal with
  | |- context [tickPlayers sd rest ?w1] =>
      pose proof (IH w1) as H; destruct (tickPlayers sd rest w1) as [rest' w2]
  end.
  cbn [snd clockReads] in *. lia.
Qed.

Lemma tickRoom_clock (r : Room) (w : World) :
  (clockReads w <= clockReads (snd (tickRoom r w)))%nat.
Proof.
  unfold tickRoom, bind, ret, nowMs, send.
  pose proof (tickPlayers_clock (seed r) (players r) w) as H.
  destruct (tickPlayers (seed r) (players r) w) as [ps w1].
  cbn [snd clockReads] in *. lia.
Qed.

Lemma tickRoom_result (r : Room) (w : World) :
  exists ps, fst (tickRoom r w) = with_players r ps /\
             ticked (seed r) (players r) ps.
Proof.
  unfold tickRoom, bind, ret, nowMs, send.
  pose proof (tickPlayers_ticked Date_now (seed r) (players r) w) as Hf.
  destruct (tickPlayers (seed r) (players r) w) as [ps w1].
  cbn [fst] in *. eauto.
Qed.

(** The pass over the running rooms keeps every room, with its creation
    time and its players' keys, leaves lobbies as they are, and only moves
    the clock forward. *)
Lemma tickRooms_keeps (codes : list string) (w : World) (c : string) (r : Room) :
  get c (rooms w) = Some r ->
  (clockReads w <= clockReads (snd (tickRooms codes w)))%nat /\
  exists r', get c (rooms (snd (tickRooms codes w))) = Some r' /\
             createdAt r' = createdAt r /\
             keys (players r') = keys (players r) /\
             (phase r = lobby -> r' = r).
Proof.
  revert w r. induction codes as [|c0 rest IH]; intros w r Hc.
  - simpl. split; [lia|]. exists r. auto.
  - simpl. unfold bind, getRoom, ret, setRoom.
    destruct (get c0 (rooms w)) as [r0|] eqn:Hc0; [|apply IH; assumption].
    destruct (Phase_eqb (phase r0) running) eqn:Hph; [|apply IH; assumption].
    assert (Hrun : phase r0 = running)
      by (destruct (phase r0); [discriminate | reflexivity]).
    destruct (tickRoom_spec Date_now r0 w) as [Hr _].
    destruct (tickRoom_result r0 w) as (ps & Hres & Ht).
    pose proof (tickRoom_clock r0 w) as Hk.
    destruct (tickRoom r0 w) as [r1 w1]. cbn [fst snd] in *. subst r1.
    destruct (String.eqb c0 c) eqn:E.
    + apply String.eqb_eq in E. subst c0.
      assert (r0 = r) by congruence. subst r0.
      destruct (IH (with_rooms w1 (set c (with_players r ps) (rooms w1)))
                  (with_players r ps)) as [Hk' IH'].
      { unfold with_rooms; cbn [rooms]. apply get_set_eq. }
      split; [cbn [with_rooms clockReads] in Hk'; lia|].
      destruct IH' as (r' & Hg & Hca & Hks & _).
      exists r'. split; [exact Hg|].
      cbn [createdAt players with_players] in Hca, Hks.
      split; [assumption|]. split; [|intros Hl; rewrite Hl in Hrun; discriminate].
      rewrite Hks. eapply ticked_keys; eauto.
    + destruct (IH (with_rooms w1 (set c0 (with_players r0 ps) (rooms w1))) r)
        as [Hk' IH'].
      { unfold with_rooms; cbn [rooms]. rewrite get_set, E, Hr. exact Hc. }
      split; [cbn [with_rooms clockReads] in Hk'; lia | exact IH'].
Qed.

(** What a tick of the timer leaves under a code. *)
Lemma interval_get (w : World) (c : string) (r : Room) :
  get c (rooms w) = Some r ->
  exists n r',
    (clockReads w <= n)%nat /\
    createdAt r' = createdAt r /\
    keys (players r') = keys (players r) /\
    (phase r = lobby -> r' = r) /\
    get c (rooms (step Interval w))
    = if stale (Date_now n) r then None else Some r'.
Proof.
  intros Hc.
  run_js. unfold interval, destroyEmptyStaleRooms, roomKeys. run_js.
  destruct (tickRooms_keeps (keys (rooms w)) w c r Hc)
    as (Hk & r' & Hg & Hca & Hks & Hl).
  destruct (tickRooms (keys (rooms w)) w) as [[] w1]. cbn [snd] in *.
  exists (clockReads w1), r'.
  split; [assumption|]. split; [assumption|]. split; [assumption|].
  split; [assumption|].
  cbn [rooms]. rewrite destroyEmptyStaleRooms_from_get. cbn [rooms].
  rewrite Hg. rewrite (get_in_keys c r' (rooms w1) Hg). cbn [andb].
  unfold stale. rewrite Hca, Hks. reflexivity.
Qed.

(** X16. The rule of the sweep.  At a tick of the timer a room leaves the
    registry exactly when it has no player and the reading of the clock
    taken by the sweep is more than an hour after its [createdAt]; a room
    with a player is never removed.  A room that stays keeps its creation
    time and its players' keys, and a lobby stays as it is. *)
Theorem interval_sweeps_empty_stale_rooms (w : World) (c : string) (r : Room) :
  get c (rooms w) = Some r ->
  exists n r',
    (clockReads w <= n)%nat /\
    createdAt r' = createdAt r /\
    keys (players r') = keys (players r) /\
    (phase r = lobby -> r' = r) /\
    get c (rooms (step Interval w))
    = (if stale (Date_now n) r then None else Some r') /\
    (players r <> [] -> get c (rooms (step Interval w)) = Some r').
Proof.
  intros Hc.
  destruct (interval_get w c r Hc) as (n & r' & Hn & Hca & Hks & Hl & Hg).
  exists n, r'. repeat split; try assumption.
  intros Hne. rewrite Hg. unfold stale.
  destruct (players r); [congruence | reflexivity].
Qed.

(** X17. When the last player of a room leaves or disconnects, the room
    stays in the registry with its creation time set back, and the next
    tick of the timer removes it, provided the clock does not run
    backwards. *)
Theorem last_departure_empties_then_sweeps
    (w : World) (sid jc : string) (r : Room) (p : Player) :
  (forall n m, (n <= m)%nat -> (Date_now n <= Date_now m)%Z) ->
  get sid (joinedCode w) = Some jc ->
  get jc (rooms w) = Some r ->
  players r = [(sid, p)] ->
  (exists r1, get jc (rooms (step (LeaveRoom sid) w)) = Some r1 /\
              players r1 = []) /\
  get jc (rooms (step Interval (step (LeaveRoom sid) w))) = None /\
  (exists r2, get jc (rooms (step (Disconnect sid) w)) = Some r2 /\
              players r2 = []) /\
  get jc (rooms (step Interval (step (Disconnect sid) w))) = None.
Proof.
  intros Hmono Hj Hr Hps.
  assert (Hsweep : forall w1 r1,
             get jc (rooms w1) = Some r1 -> players r1 = [] ->
             createdAt r1 = (Date_now (clockReads w) - ROOM_TTL_MS - 1)%Z ->
             (clockReads w <= clockReads w1)%nat ->
             get jc (rooms (step Interval w1)) = None).
  { intros w1 r1 Hg He Hc Hk.
    destruct (interval_get w1 jc r1 Hg)
      as (n & r' & Hn & _ & _ & _ & Hget).
    rewrite Hget. unfold stale. rewrite He, Hc. cbn [keys map List.length Nat.eqb andb].
    assert (Date_now (clockReads w) <= Date_now n)%Z by (apply Hmono; lia).
    replace (Date_now n - (Date_now (clockReads w) - ROOM_TTL_MS - 1) >? ROOM_TTL_MS)%Z
      with true; [reflexivity|].
    symmetry. apply Z.gtb_lt. lia. }
  assert (Hdel : del sid (players r) = []).
  { rewrite Hps. simpl. now rewrite String.eqb_refl. }
  assert (HL : exists r1, get jc (rooms (step (LeaveRoom sid) w)) = Some r1 /\
                 players r1 = [] /\
                 createdAt r1 = (Date_now (clockReads w) - ROOM_TTL_MS - 1)%Z /\
                 (clockReads w <= clockReads (step (LeaveRoom sid) w))%nat).
  { run_js. unfold on_leaveRoom. run_js. rewrite Hj, Hr.
    cbn [players with_players]. rewrite Hdel.
    cbn [keys map List.length Nat.eqb snd rooms clockReads].
    eexists. split; [apply get_set_eq|]. repeat split. lia. }
  assert (HD : exists r2, get jc (rooms (step (Disconnect sid) w)) = Some r2 /\
                 players r2 = [] /\
                 createdAt r2 = (Date_now (clockReads w) - ROOM_TTL_MS - 1)%Z /\
                 (clockReads w <= clockReads (step (Disconnect sid) w))%nat).
  { run_js. unfold on_disconnect. run_js. rewrite Hj, Hr.
    cbn [players with_players]. rewrite Hdel.
    replace (if match get sid (players r) with
                | Some p0 => isHost p0
                | None => false
                end then promoteFirst [] else []) with (@nil (string * Player))
      by (destruct (match get sid (players r) with
                    | Some p0 => isHost p0 | None => false end); reflexivity).
    cbn [keys map List.length Nat.eqb snd rooms clockReads].
    eexists. split; [apply get_set_eq|]. repeat split. lia. }
  destruct HL as (r1 & G1 & E1 & C1 & K1).
  destruct HD as (r2 & G2 & E2 & C2 & K2).
  split; [eauto|]. split; [eapply Hsweep; eauto|].
  split; [eauto|]. eapply Hsweep; eauto.
Qed.

End SweepFacts.

(** ** The further properties on the demo room *)

Lemma demo_world_rooms (P : Room -> Prop) (ph : Phase) :
  P (demo_room ph) -> every_room P (demo_world ph).
Proof.
  intros H c r. simpl.
  destruct (String.eqb c "ABC234"); [|discriminate].
  now intros [= <-].
Qed.

Lemma demo_world_controls (ph : Phase) :
  every_player controls_in_range (demo_world ph).
Proof.
  intros c r sid p. simpl.
  destruct (String.eqb c "ABC234"); [|discriminate].
  intros [= <-]. simpl.
  destruct (String.eqb sid "sockA");
    [intros [= <-]; repeat split; simpl; lra|].
  destruct (String.eqb sid "sockB");
    [intros [= <-]; repeat split; simpl; lra|].
  discriminate.
Qed.

(** X6 on the demo lobby: a third player joins. *)
Lemma rooms_never_exceed_capacity_demo :
  exists r,
    get "ABC234"
      (rooms (run clock0 random0 parse0
                [JoinRoom "sockC" (Some " abc234 ") (Some "Carol") None]
                (demo_world lobby))) = Some r /\
    (List.length (players r) <= 12)%nat.
Proof.
  assert (H0 : every_room (fun r => (List.length (players r) <= 12)%nat)
                 (demo_world lobby))
    by (apply demo_world_rooms; simpl; lia).
  eexists. split; [reflexivity|].
  exact (rooms_never_exceed_capacity clock0 random0 parse0
           [JoinRoom "sockC" (Some " abc234 ") (Some "Carol") None]
           (demo_world lobby) H0 "ABC234" _ eq_refl).
Defined.

(** X7 on the demo room: the host disconnects, then the new host does. *)
Lemma rooms_never_have_two_hosts_demo :
  exists r,
    get "ABC234"
      (rooms (run clock0 random0 parse0
                [Disconnect "sockA"; JoinRoom "sockC" (Some "ABC234") None None]
                (demo_world lobby))) = Some r /\
    (hosts (players r) <= 1)%nat.
Proof.
  assert (H0 : every_room (fun r => (hosts (players r) <= 1)%nat)
                 (demo_world lobby))
    by (apply demo_world_rooms; unfold hosts; simpl; lia).
  eexists. split; [reflexivity|].
  exact (rooms_never_have_two_hosts clock0 random0 parse0
           [Disconnect "sockA"; JoinRoom "sockC" (Some "ABC234") None None]
           (demo_world lobby) H0 "ABC234" _ eq_refl).
Defined.

(** X8 on the demo room: an input out of range, then a tick. *)
Lemma controls_are_always_in_range_demo :
  exists r p,
    get "ABC234"
      (rooms (run clock0 random0 parse0
                [Input "sockB" (Some demo_input); Interval]
                (demo_world running))) = Some r /\
    get "sockB" (players r) = Some p /\
    controls_in_range p.
Proof.
  eexists. eexists.
  split; [reflexivity|]. split; [reflexivity|].
  eapply (controls_are_always_in_range clock0 random0 parse0
            [Input "sockB" (Some demo_input); Interval]
            (demo_world running) (demo_world_controls running)
            "ABC234" _ "sockB" _); reflexivity.
Defined.

(** X9 on the demo lobby: the host starts the game. *)
Lemma seed_and_code_are_fixed_demo :
  seed (demo_room running) = seed (demo_room lobby) /\
  code (demo_room running) = code (demo_room lobby) /\
  lastTick (demo_room running) = lastTick (demo_room lobby).
Proof.
  exact (seed_and_code_are_fixed clock0 random0 parse0
           (StartGame "sockA") (demo_world lobby) "ABC234"
           (demo_room lobby) (demo_room running) eq_refl eq_refl).
Defined.

(** X10 on the running demo room: a third connection asks to join. *)
Lemma running_room_admits_nobody_demo :
  incl (keys (players (demo_room running))) ["sockA"; "sockB"] /\
  (List.length (players (demo_room running)) <= 2)%nat.
Proof.
  exact (running_room_admits_nobody clock0 random0 parse0
           (JoinRoom "sockC" (Some "ABC234") None None)
           (demo_world running) "ABC234"
           (demo_room running) (demo_room running) eq_refl eq_refl eq_refl).
Defined.

(** X11 on the running demo room: Alice, the host, disconnects. *)
Lemma disconnect_leaves_one_host_demo :
  exists r' k p rest,
    get "ABC234"
      (rooms (step clock0 random0 parse0 (Disconnect "sockA")
                (demo_world running))) = Some r' /\
    players r' = (k, p) :: rest /\
    isHost p = true /\
    hosts (players r') = 1%nat.
Proof.
  apply (disconnect_leaves_one_host clock0 random0 parse0
           (demo_world running) "sockA" "ABC234" (demo_room running)
           eq_refl eq_refl eq_refl).
  - unfold hosts. simpl. lia.
  - simpl. discriminate.
Defined.

(** X12 on the demo lobby: a connection that never joined asks to start. *)
Lemma requests_without_room_are_dropped_demo :
  step clock0 random0 parse0 (StartGame "sockZ") (demo_world lobby)
  = demo_world lobby.
Proof.
  exact (proj1 (proj2 (requests_without_room_are_dropped clock0 random0 parse0
                         (demo_world lobby) "sockZ" JNull None eq_refl))).
Defined.

(** X13 on the demo lobby: Bob, who is not the host, asks to start. *)
Lemma requests_of_non_hosts_are_dropped_demo :
  step clock0 random0 parse0 (StartGame "sockB") (demo_world lobby)
  = demo_world lobby.
Proof.
  exact (proj1 (requests_of_non_hosts_and_strangers_are_dropped
                  clock0 random0 parse0 (demo_world lobby) "sockB" "ABC234"
                  (demo_room lobby) JNull (Some demo_input)
                  eq_refl eq_refl eq_refl)).
Defined.

(** X14 with the constant generator. *)
Lemma makeCode_gives_six_alphabet_characters_demo :
  String.length (fst (makeCode random0 (demo_world lobby))) = 6%nat.
Proof.
  refine (proj1 (makeCode_gives_six_alphabet_characters random0
                   (demo_world lobby) _)).
  intros n. unfold random0. lra.
Defined.

(** X16 on the demo lobby: it has players and stays. *)
Lemma interval_sweeps_empty_stale_rooms_demo :
  exists n r',
    (0 <= n)%nat /\
    createdAt r' = 0%Z /\
    keys (players r') = ["sockA"; "sockB"] /\
    (lobby = lobby -> r' = demo_room lobby) /\
    get "ABC234" (rooms (step clock0 random0 parse0 Interval (demo_world lobby)))
    = (if stale (clock0 n) (demo_room lobby) then None else Some r') /\
    (players (demo_room lobby) <> [] ->
     get "ABC234" (rooms (step clock0 random0 parse0 Interval (demo_world lobby)))
     = Some r').
Proof.
  exact (interval_sweeps_empty_stale_rooms clock0 random0 parse0
           (demo_world lobby) "ABC234" (demo_room lobby) eq_refl).
Defined.

(** X17 for Alice alone in her lobby. *)
Lemma last_departure_empties_then_sweeps_demo :
  get "ABC234"
    (rooms (step clock0 random0 parse0 Interval
              (step clock0 random0 parse0 (LeaveRoom "sockA") solo_world)))
  = None.
Proof.
  refine (proj1 (proj2 (last_departure_empties_then_sweeps
                          clock0 random0 parse0 solo_world "sockA" "ABC234"
                          (with_players (demo_room lobby) [("sockA", alice)])
                          alice _ eq_refl eq_refl eq_refl))).
  intros n m _. unfold clock0. lia.
Defined.

(** ** Names and codes typed by players *)

Lemma substring_0_length (m : nat) (s : string) :
  (String.length (substring 0 m s) <= m)%nat.
Proof.
  revert s. induction m as [|m IH]; intros [|c s]; simpl; try lia.
  specialize (IH s). lia.
Qed.

Lemma substring_0_all (m : nat) (s : string) :
  (String.length s <= m)%nat -> substring 0 m s = s.
Proof.
  revert s. induction m as [|m IH]; intros [|c s]; simpl; intros H;
    try reflexivity; try lia.
  rewrite IH; [reflexivity | lia].
Qed.

(** X18. The name given to a player is never empty and never longer than
    18 characters; a name of 1 to 18 characters is kept as typed, and a
    missing or empty one becomes "Driver". *)
Theorem playerName_is_bounded (nm : option string) :
  (1 <= String.length (playerName nm) <= 18)%nat /\
  match nm with
  | Some s =>
      if (1 <=? String.length s)%nat && (String.length s <=? 18)%nat
      then playerName nm = s
      else if (String.length s =? 0)%nat then playerName nm = "Driver"
      else playerName nm = substring 0 18 s
  | None => playerName nm = "Driver"
  end.
Proof.
  destruct nm as [s|]; simpl; [|split; [lia | reflexivity]].
  unfold or_default.
  pose proof (substring_0_length 18 s) as Hl.
  split.
  - destruct (substring 0 18 s) as [|c t] eqn:E; simpl in *; lia.
  - destruct s as [|c s]; simpl; [reflexivity|].
    destruct (String.length s <=? 17)%nat eqn:E.
    + apply Nat.leb_le in E.
      rewrite (substring_0_all 17 s) by lia. reflexivity.
    + reflexivity.
Qed.

Lemma CODE_CHARS_plain (ch : ascii) :
  In ch (list_ascii_of_string CODE_CHARS) ->
  upper ch = ch /\ is_space ch = false.
Proof.
  simpl. intros H.
  repeat (destruct H as [<- | H]; [split; reflexivity|]).
  contradiction.
Qed.

Lemma toUpperCase_code (s : string) : code_like s -> toUpperCase s = s.
Proof.
  unfold code_like. induction s as [|c s IH]; simpl; [reflexivity|].
  intros H. inversion H; subst.
  destruct (CODE_CHARS_plain c) as [Hu _]; [assumption|].
  now rewrite Hu, IH.
Qed.

Lemma trimStart_code (s : string) : code_like s -> trimStart s = s.
Proof.
  unfold code_like. destruct s as [|c s]; simpl; [reflexivity|].
  intros H. inversion H; subst.
  destruct (CODE_CHARS_plain c) as [_ Hs]; [assumption|].
  now rewrite Hs.
Qed.

Lemma trimEnd_code (s : string) : code_like s -> trimEnd s = s.
Proof.
  unfold code_like. induction s as [|c s IH]; simpl; [reflexivity|].
  intros H. inversion H; subst.
  destruct (CODE_CHARS_plain c) as [_ Hs]; [assumption|].
  rewrite IH by assumption. rewrite Hs.
  destruct s; reflexivity.
Qed.

(** X19. A code made of characters of the alphabet, as [makeCode] makes
    them, is its own normal form: typed as it was shown, it is the key
    that [joinRoom] looks up. *)
Theorem normalizeCode_keeps_codes (c : string) :
  code_like c -> normalizeCode (Some c) = c.
Proof.
  intros H. unfold normalizeCode, or_default, trim.
  destruct (String.eqb c "") eqn:E.
  - apply String.eqb_eq in E. subst c. reflexivity.
  - rewrite toUpperCase_code, trimStart_code, trimEnd_code; auto.
Qed.

(** A check of [code_like] that computes. *)
Lemma code_like_check (s : string) :
  forallb (fun ch => existsb (Ascii.eqb ch) (list_ascii_of_string CODE_CHARS))
          (list_ascii_of_string s) = true ->
  code_like s.
Proof.
  unfold code_like. rewrite forallb_forall, Forall_forall.
  intros H ch Hin. specialize (H ch Hin).
  apply existsb_exists in H. destruct H as (c & Hc & E).
  apply Ascii.eqb_eq in E. now subst c.
Qed.

(** X19 for the code of the demo room. *)
Lemma normalizeCode_keeps_codes_demo : normalizeCode (Some "ABC234") = "ABC234".
Proof.
  apply normalizeCode_keeps_codes.
  apply code_like_check. reflexivity.
Defined.

(** ** A timer tick before any game has started *)

Lemma destroyEmptyStaleRooms_from_sent (t : Z) (codes : list string) (w : World) :
  sent (snd (destroyEmptyStaleRooms_from t codes w)) = sent w /\
  joinedCode (snd (destroyEmptyStaleRooms_from t codes w)) = joinedCode w.
Proof.
  revert w. induction codes as [|c rest IH]; intros w; [split; reflexivity|].
  simpl. unfold bind, getRoom, ret, deleteRoom.
  destruct (get c (rooms w)) as [r|]; [|apply IH].
  match goal with |- context [if ?b then _ else _] => destruct b end;
    [|apply IH].
  match goal with
  | |- context [destroyEmptyStaleRooms_from t rest ?w1] =>
      destruct (IH w1) as [H1 H2]
  end.
  split; assumption.
Qed.

Section QuietFacts.

Variable Date_now : nat -> Z.
Variable Math_random : nat -> R.
Variable StringToNumber : string -> jsnum.

Local Abbreviation tickRooms := (tickRooms Date_now).
Local Abbreviation step := (step Date_now Math_random StringToNumber).

Lemma tickRooms_lobbies (codes : list string) (w : World) :
  every_room (fun r => phase r = lobby) w -> tickRooms codes w = (tt, w).
Proof.
  intros Hw. induction codes as [|c rest IH]; [reflexivity|].
  simpl. unfold bind, getRoom, ret.
  destruct (get c (rooms w)) as [r|] eqn:Hc; [|exact IH].
  rewrite (Hw c r Hc). simpl. exact IH.
Qed.

(** X20. While no room is running the timer simulates nothing and sends
    nothing: a tick reads the clock once for the sweep, leaves every
    player record and every connection as it is, and removes only rooms
    that are empty and stale. *)
Theorem interval_is_quiet_before_start (w : World) :
  every_room (fun r => phase r = lobby) w ->
  sent (step Interval w) = sent w /\
  joinedCode (step Interval w) = joinedCode w /\
  forall c,
    get c (rooms (step Interval w))
    = match get c (rooms w) with
      | Some r => if stale (Date_now (clockReads w)) r then None else Some r
      | None => None
      end.
Proof.
  intros Hw. run_js. unfold interval, destroyEmptyStaleRooms, roomKeys. run_js.
  rewrite (tickRooms_lobbies (keys (rooms w)) w Hw). cbn [snd rooms].
  match goal with
  | |- context [destroyEmptyStaleRooms_from ?t ?cs ?w1] =>
      destruct (destroyEmptyStaleRooms_from_sent t cs w1) as [H1 H2];
      pose proof (destroyEmptyStaleRooms_from_get t cs w1) as H3
  end.
  split; [exact H1|]. split; [exact H2|].
  intros c. rewrite H3. cbn [rooms].
  destruct (get c (rooms w)) as [r|] eqn:Hc; [|reflexivity].
  now rewrite (get_in_keys c r (rooms w) Hc).
Qed.

End QuietFacts.

(** X20 on the demo lobby. *)
Lemma interval_is_quiet_before_start_demo :
  sent (step clock0 random0 parse0 Interval (demo_world lobby)) = [].
Proof.
  refine (proj1 (interval_is_quiet_before_start clock0 random0 parse0
                   (demo_world lobby) _)).
  apply demo_world_rooms. reflexivity.
Defined.
